(** * Weather aggregator: the aggregation engine, its cache and its reducers

    A shallow embedding of [aggregator/aggregator.go].  Go's [float64] is
    Rocq's primitive binary64 float, [int] and [time.Duration] are [Z],
    [map[string]T] is [gmap string T], and the effects of the engine (the
    wall clock, the goroutine scheduler, the order in which a Go map is
    ranged over, the answers of the upstream services) are explicit inputs. *)

From Stdlib Require Import ZArith Floats Lia Ascii.
From stdpp Require Import gmap strings list fin_maps.

Open Scope Z_scope.

(** ** Unordered iteration and goroutine interleaving

    Go ranges over a map in an unspecified order, and goroutines launched
    together finish in an unspecified order.  Both are driven here by a list
    of choices: at each step the choice selects which of the remaining
    elements comes next.  Every list of choices is a legal run. *)

Fixpoint permute {A : Type} (choices : list nat) (l : list A) : list A :=
  match choices with
  | [] => l
  | k :: ks =>
      let i := (k `mod` length l)%nat in
      match l !! i with
      | Some y => y :: permute ks (delete i l)
      | None => l
      end
  end.

(** ** Binary64 helpers *)

(** [math.MaxFloat64]. *)
Definition MaxFloat64 : float := 0x1.fffffffffffffp+1023%float.

(** The conversion [float64(n)] of an [int]: round to nearest, ties to even. *)
Definition float64_of_int (n : Z) : float :=
  SF2Prim (binary_normalize prec emax n 0 false).

(** Go's [v > w] on floats. *)
Definition fgtb (v w : float) : bool := (w <? v)%float.

(** ** package models *)

Definition Time := Z.       (* an instant, in nanoseconds *)
Definition Duration := Z.   (* time.Duration: int64 nanoseconds *)

(** [models.WeatherData], the reading of one provider, field for field as
    package models declares it (the second half of [config/config.go]). *)
Record WeatherData := {
  wd_Provider : string;
  wd_Location : string;
  wd_Temperature : float;
  wd_FeelsLike : float;
  wd_Humidity : Z;
  wd_Pressure : Z;
  wd_WindSpeed : float;
  wd_WindDirection : Z;
  wd_Description : string;
  wd_Icon : string;
  wd_Sunrise : Time;
  wd_Sunset : Time;
  wd_Timestamp : Time;
  wd_Units : string
}.

(** [models.AggregatedValue], as package models declares it. *)
Record AggregatedValue := {
  Average : float;
  Min : float;
  Max : float;
  Values : list float
}.

(** [models.AggregatedWeather], as package models declares it. *)
Record AggregatedWeather := {
  aw_Location : string;
  aw_Temperature : AggregatedValue;
  aw_FeelsLike : AggregatedValue;
  aw_Humidity : AggregatedValue;
  aw_Pressure : AggregatedValue;
  aw_WindSpeed : AggregatedValue;
  aw_Description : string;
  aw_Providers : list string;
  aw_LastUpdated : Time
}.

(** ** The statistical reducer *)

(** The zero value [models.AggregatedValue{}]. *)
Definition AggregatedValue_zero : AggregatedValue :=
  {| Average := 0%float; Min := 0%float; Max := 0%float; Values := [] |}.

(** One turn of the loop of [aggregateValues] on the triple (sum, min, max). *)
Definition aggregateValues_step (st : float * float * float) (v : float)
  : float * float * float :=
  let '(sum, min, max) := st in
  ((sum + v)%float,
   if (v <? min)%float then v else min,
   if fgtb v max then v else max).

Definition aggregateValues (values : list float) : AggregatedValue :=
  if (Z.of_nat (length values) =? 0) then AggregatedValue_zero
  else
    let '(sum, min, max) :=
      fold_left aggregateValues_step values
                (0%float, MaxFloat64, (- MaxFloat64)%float) in
    {| Average := (sum / float64_of_int (Z.of_nat (length values)))%float;
       Min := min;
       Max := max;
       Values := values |}.

(** [freq[v]++] for every value: a missing key reads as 0.  A count is at
    most [len(values)], so the 64-bit [int] never wraps. *)
Definition tally (values : list string) : gmap string Z :=
  fold_left (fun freq v => <[v := default 0 (freq !! v) + 1]> freq) values ∅.

(** One turn of the second loop of [mostFrequent] on (maxFreq, result). *)
Definition mostFrequent_step (st : Z * string) (kv : string * Z) : Z * string :=
  let '(maxFreq, result) := st in
  let '(v, f) := kv in
  if f >? maxFreq then (f, v) else (maxFreq, result).

(** [mostFrequent]; [order] drives the order in which [freq] is ranged over. *)
Definition mostFrequent (order : list nat) (values : list string) : string :=
  let freq := tally values in
  snd (fold_left mostFrequent_step (permute order (map_to_list freq)) (0, ""%string)).

(** ** package providers *)

(** What [Provider.GetWeather] returns: both adapters return either a reading
    and a nil error, or a nil reading and an error ([err.Error()] is kept).
    What other implementations of the interface may do is in [Reply]. *)
Inductive FetchResult :=
  | FetchOk (weather : WeatherData)
  | FetchErr (err : string).

(** A registered adapter.  Its [GetWeather] talks to an upstream service, so
    its answer is taken from the environment of the run (see [Env]). *)
Record Provider := {
  Name : string;
  IsAvailable : bool
}.

(** ** The environment of one call of [GetWeather] *)

Record Env := {
  (** [time.Now()] as read by [getFromCache], [aggregateWeather], [saveToCache] *)
  now_lookup : Time;
  now_aggregate : Time;
  now_save : Time;
  (** [ctx.Err()] as the goroutine of provider number [i] finds it when it
      runs its [select]: [None] while [ctx.Done()] is still open *)
  ctx_Err : nat -> option string;
  (** the answer of provider number [i] to [GetWeather(ctx, city, country)] *)
  fetch : nat -> string -> string -> FetchResult;
  (** the order in which the goroutines send on the channels *)
  schedule : list nat;
  (** the order in which [mostFrequent] ranges over its tally *)
  map_order : list nat
}.

(** ** package aggregator *)

Record cacheEntry := {
  data : AggregatedWeather;
  timestamp : Time
}.

Record Aggregator := {
  providers : list Provider;
  cache : gmap string cacheEntry;
  cacheTTL : Duration
}.

(** Methods with a pointer receiver: functions of the aggregator's state that
    return a value and the state they leave behind. *)
Definition M (A : Type) : Type := Aggregator -> A * Aggregator.

Definition ret {A : Type} (x : A) : M A := fun a => (x, a).

Definition bind {A B : Type} (c : M A) (k : A -> M B) : M B :=
  fun a => let '(x, a') := c a in k x a'.

Notation "'let*' x ':=' c 'in' k" := (bind c (fun x => k))
  (at level 10, x name, c at level 200, k at level 200).

Definition wrap_int64 (z : Z) : Z := (z + 2 ^ 63) mod 2 ^ 64 - 2 ^ 63.

Definition minDuration : Duration := - 2 ^ 63.
Definition maxDuration : Duration := 2 ^ 63 - 1.
Definition Minute : Duration := 60 * 1000000000.

(** [t.Sub(u)]: the difference, saturated to the range of [Duration]. *)
Definition Sub (t u : Time) : Duration :=
  let d := t - u in
  if d <? minDuration then minDuration
  else if d >? maxDuration then maxDuration
  else d.

(** [time.Since(t)], with the clock reading [now]. *)
Definition Since (now t : Time) : Duration := Sub now t.

Definition NewAggregator (cacheDurationMinutes : Z) : Aggregator :=
  {| providers := [];
     cache := ∅;
     cacheTTL := wrap_int64 (cacheDurationMinutes * Minute) |}.

Definition AddProvider (provider : Provider) : M unit := fun a =>
  if IsAvailable provider
  then (tt, {| providers := providers a ++ [provider];
               cache := cache a;
               cacheTTL := cacheTTL a |})
  else (tt, a).

Definition getFromCache (key : string) (now : Time) : M (option AggregatedWeather) :=
  fun a =>
    match cache a !! key with
    | None => (None, a)
    | Some entry =>
        if Since now (timestamp entry) >? cacheTTL a then (None, a)
        else (Some (data entry), a)
    end.

Definition saveToCache (key : string) (d : AggregatedWeather) (now : Time) : M unit :=
  fun a =>
    (tt, {| providers := providers a;
            cache := <[key := {| data := d; timestamp := now |}]> (cache a);
            cacheTTL := cacheTTL a |}).

Definition ClearCache : M unit := fun a =>
  (tt, {| providers := providers a; cache := ∅; cacheTTL := cacheTTL a |}).

Definition GetProviderCount (a : Aggregator) : Z := Z.of_nat (length (providers a)).

Definition GetProvidersInfo (a : Aggregator) : list string := map Name (providers a).

Definition aggregateWeather (order : list nat) (now : Time)
    (d : list WeatherData) (city country : string) : AggregatedWeather :=
  {| aw_Location := city ++ ", " ++ country;
     aw_LastUpdated := now;
     aw_Providers := map wd_Provider d;
     aw_Temperature := aggregateValues (map wd_Temperature d);
     aw_FeelsLike := aggregateValues (map wd_FeelsLike d);
     aw_Humidity := aggregateValues (map (fun x => float64_of_int (wd_Humidity x)) d);
     aw_Pressure := aggregateValues (map (fun x => float64_of_int (wd_Pressure x)) d);
     aw_WindSpeed := aggregateValues (map wd_WindSpeed d);
     aw_Description := mostFrequent order (map wd_Description d) |}.

(** What one goroutine sends: a reading on [results] or an error on [errors]. *)
Inductive Message :=
  | ToResults (weather : WeatherData)
  | ToErrors (err : string).

(** The body of the goroutine started for provider number [i]: the message it
    sends, and whether it called the provider. *)
Definition goroutine (env : Env) (city country : string) (i : nat) (p : Provider)
  : Message * list string :=
  match ctx_Err env i with
  | Some err => (ToErrors err, [])
  | None =>
      match fetch env i city country with
      | FetchErr err => (ToErrors (Name p ++ ": " ++ err), [Name p])
      | FetchOk weather => (ToResults weather, [Name p])
      end
  end.

Definition received_results (msgs : list Message) : list WeatherData :=
  omap (fun m => match m with ToResults w => Some w | ToErrors _ => None end) msgs.

Definition received_errors (msgs : list Message) : list string :=
  omap (fun m => match m with ToErrors e => Some e | ToResults _ => None end) msgs.

(** The errors [GetWeather] returns. *)
Inductive GetWeatherError :=
  | NoProvidersAvailable
  | AllProvidersFailed (errs : list string)
  | EmptyResultSet.

(** [fmt.Sprintf("%v", errs)] for a slice of strings. *)
Definition format_slice (errs : list string) : string :=
  "[" ++ String.concat " " errs ++ "]".

(** The text of each error. *)
Definition Error (e : GetWeatherError) : string :=
  match e with
  | NoProvidersAvailable => "нет доступных провайдеров"
  | AllProvidersFailed errs => "все провайдеры вернули ошибки: " ++ format_slice errs
  | EmptyResultSet => "не удалось получить данные от провайдеров"
  end.

Inductive Result :=
  | Ok (weather : AggregatedWeather)
  | Err (e : GetWeatherError).

(** The key under which [GetWeather] caches: [fmt.Sprintf("%s,%s", city, country)]. *)
Definition cacheKey (city country : string) : string := city ++ "," ++ country.

(** The messages in the order the channels deliver them, and the provider
    calls that were made. *)
Definition fan_out (env : Env) (city country : string) (ps : list Provider)
  : list Message * list string :=
  let runs := permute (schedule env) (imap (goroutine env city country) ps) in
  (map fst runs, concat (map snd runs)).

(** [GetWeather]: the value returned, and the names of the providers whose
    [GetWeather] was called on the way. *)
Definition GetWeather (env : Env) (city country : string) : M (Result * list string) :=
  let* cached := getFromCache (cacheKey city country) (now_lookup env) in
  match cached with
  | Some w => ret (Ok w, [])
  | None =>
      fun a =>
        if Z.of_nat (length (providers a)) =? 0
        then (Err NoProvidersAvailable, [], a)
        else
          let '(msgs, calls) := fan_out env city country (providers a) in
          let weatherData := received_results msgs in
          let errs := received_errors msgs in
          if Z.of_nat (length weatherData) =? 0
          then
            if Z.of_nat (length errs) >? 0
            then (Err (AllProvidersFailed errs), calls, a)
            else (Err EmptyResultSet, calls, a)
          else
            let aggregated :=
              aggregateWeather (map_order env) (now_aggregate env) weatherData city country in
            let '(_, a') := saveToCache (cacheKey city country) aggregated (now_save env) a in
            (Ok aggregated, calls, a')
  end.

(** ** Providers that break the contract of the interface

    [FetchResult] is what the call [p.GetWeather(ctx, city, country)] comes
    to when the provider answers with a reading or with an error, as the two
    adapters do, and [goroutine], [fan_out] and [GetWeather] above are the
    code run over such providers.  The interface lets an implementation
    return any pair [(weather, err)], the pair (nil, nil) included, and lets
    the call panic or block for ever.  Module [AnyProvider] is the same code
    run over any implementation. *)

(** What a call of [p.GetWeather] comes to: the pair it returns ([None] is
    nil), a panic, or no return at all. *)
Inductive Reply :=
  | Replied (weather : option WeatherData) (err : option string)
  | CallPanics
  | CallBlocks.

(** The reading or the error of a reply; the branch [err != nil] of the
    goroutine is taken whatever the reading is. *)
Definition within_contract (r : Reply) : option FetchResult :=
  match r with
  | Replied _ (Some err) => Some (FetchErr err)
  | Replied (Some weather) None => Some (FetchOk weather)
  | Replied None None => None
  | CallPanics => None
  | CallBlocks => None
  end.

(** How a piece of code ends: it returns, the program panics, or it never
    returns. *)
Inductive Outcome (A : Type) :=
  | Returns (x : A)
  | Panics
  | Blocks.
Arguments Returns {A} x.
Arguments Panics {A}.
Arguments Blocks {A}.

Module AnyProvider.

(** What one goroutine sends: a pointer to a reading, which may be nil, on
    [results], or an error on [errors]. *)
Inductive Message :=
  | ToResults (weather : option WeatherData)
  | ToErrors (err : string).

(** The body of the goroutine started for provider number [i]. *)
Definition goroutine (env : Env) (reply : nat -> string -> string -> Reply)
    (city country : string) (i : nat) (p : Provider)
  : Outcome (Message * list string) :=
  match ctx_Err env i with
  | Some err => Returns (ToErrors err, [])
  | None =>
      match reply i city country with
      | Replied _ (Some err) => Returns (ToErrors (Name p ++ ": " ++ err), [Name p])
      | Replied weather None => Returns (ToResults weather, [Name p])
      | CallPanics => Panics
      | CallBlocks => Blocks
      end
  end.

(** [wg.Wait()]: it returns once every goroutine has returned; a panic in
    one goroutine ends the program, and otherwise one goroutine that never
    returns keeps it waiting. *)
Fixpoint Wait {A : Type} (runs : list (Outcome A)) : Outcome (list A) :=
  match runs with
  | [] => Returns []
  | run :: runs' =>
      match run, Wait runs' with
      | Panics, _ => Panics
      | _, Panics => Panics
      | Blocks, _ => Blocks
      | _, Blocks => Blocks
      | Returns x, Returns xs => Returns (x :: xs)
      end
  end.

Definition received_results (msgs : list Message) : list (option WeatherData) :=
  omap (fun m => match m with ToResults w => Some w | ToErrors _ => None end) msgs.

Definition received_errors (msgs : list Message) : list string :=
  omap (fun m => match m with ToErrors e => Some e | ToResults _ => None end) msgs.

Definition fan_out (env : Env) (reply : nat -> string -> string -> Reply)
    (city country : string) (ps : list Provider)
  : Outcome (list Message * list string) :=
  match Wait (imap (goroutine env reply city country) ps) with
  | Returns runs =>
      let runs := permute (schedule env) runs in
      Returns (map fst runs, concat (map snd runs))
  | Panics => Panics
  | Blocks => Blocks
  end.

(** [aggregateWeather] on the slice of pointers: its loop reads the fields
    of every reading through its pointer, so a nil pointer makes it panic. *)
Definition aggregateWeather (order : list nat) (now : Time)
    (data : list (option WeatherData)) (city country : string)
  : Outcome AggregatedWeather :=
  match mapM id data with
  | Some d => Returns (aggregateWeather order now d city country)
  | None => Panics
  end.

(** [GetWeather] over any implementation of the interface; [reply] gives
    what the call of provider number [i] comes to, and [env] the rest of the
    run. *)
Definition GetWeather (env : Env) (reply : nat -> string -> string -> Reply)
    (city country : string) (a : Aggregator)
  : Outcome (Result * list string * Aggregator) :=
  let '(cached, a) := getFromCache (cacheKey city country) (now_lookup env) a in
  match cached with
  | Some w => Returns (Ok w, [], a)
  | None =>
      if Z.of_nat (length (providers a)) =? 0
      then Returns (Err NoProvidersAvailable, [], a)
      else
        match fan_out env reply city country (providers a) with
        | Returns (msgs, calls) =>
            let weatherData := received_results msgs in
            let errs := received_errors msgs in
            if Z.of_nat (length weatherData) =? 0
            then
              if Z.of_nat (length errs) >? 0
              then Returns (Err (AllProvidersFailed errs), calls, a)
              else Returns (Err EmptyResultSet, calls, a)
            else
              match aggregateWeather (map_order env) (now_aggregate env)
                      weatherData city country with
              | Returns aggregated =>
                  let '(_, a') :=
                    saveToCache (cacheKey city country) aggregated (now_save env) a in
                  Returns (Ok aggregated, calls, a')
              | Panics => Panics
              | Blocks => Blocks
              end
        | Panics => Panics
        | Blocks => Blocks
        end
  end.

End AnyProvider.

(** The providers called keep the contract: every call that is made
    returns, with the reading or with the error that [fetch env] names. *)
Definition keeps_contract (env : Env) (reply : nat -> string -> string -> Reply)
    (city country : string) (ps : list Provider) : Prop :=
  ∀ i p, ps !! i = Some p → ctx_Err env i = None →
         within_contract (reply i city country) = Some (fetch env i city country).

(** A message of a provider that keeps the contract, among those of any
    provider: the pointer it sends is not nil. *)
Definition lift_Message (m : Message) : AnyProvider.Message :=
  match m with
  | ToResults w => AnyProvider.ToResults (Some w)
  | ToErrors e => AnyProvider.ToErrors e
  end.

(** ** Notions the statements use *)

(** How many times [v] occurs in [values]. *)
Definition occurrences (v : string) (values : list string) : Z :=
  Z.of_nat (length (filter (λ x, x = v) values)).

(** A binary64 value that is neither a NaN nor an infinity. *)
Definition finite (v : float) : Prop := is_finite v = true.

(** *** The reference definition of the reducer

    The spec's [aggregate_numeric], written from its words: the mean is the
    sum divided by the count, and min and max are the least and the greatest
    value of the input. *)

Definition fmin (a b : float) : float := if (b <? a)%float then b else a.
Definition fmax (a b : float) : float := if (a <? b)%float then b else a.

Definition list_sum (values : list float) : float := fold_left add values 0%float.

Definition list_min (values : list float) : float :=
  match values with
  | [] => 0%float
  | v :: values' => fold_left fmin values' v
  end.

Definition list_max (values : list float) : float :=
  match values with
  | [] => 0%float
  | v :: values' => fold_left fmax values' v
  end.

Definition aggregate_numeric (values : list float) : AggregatedValue :=
  match values with
  | [] => {| Average := 0%float; Min := 0%float; Max := 0%float; Values := [] |}
  | _ => {| Average := (list_sum values / float64_of_int (Z.of_nat (length values)))%float;
            Min := list_min values;
            Max := list_max values;
            Values := values |}
  end.

(** [m] is the exact minimum of [values]: one of them, and below all of them. *)
Definition is_minimum (m : float) (values : list float) : Prop :=
  m ∈ values ∧ ∀ v, v ∈ values → (m <=? v)%float = true.

Definition is_maximum (m : float) (values : list float) : Prop :=
  m ∈ values ∧ ∀ v, v ∈ values → (v <=? m)%float = true.

(** *** The order of binary64 values

    Where a value that is not a NaN sits on the line: its class, then its
    exponent, then its mantissa (both negated for negative values). *)
Definition SFkey (x : spec_float) : Z * Z * Z :=
  match x with
  | S754_nan => (0, 0, 0)
  | S754_infinity true => (-2, 0, 0)
  | S754_finite true m e => (-1, - e, - Zpos m)
  | S754_zero _ => (0, 0, 0)
  | S754_finite false m e => (1, e, Zpos m)
  | S754_infinity false => (2, 0, 0)
  end.

Definition key_le (a b : Z * Z * Z) : Prop :=
  a.1.1 < b.1.1 ∨ (a.1.1 = b.1.1 ∧ (a.1.2 < b.1.2 ∨ (a.1.2 = b.1.2 ∧ a.2 <= b.2))).

Definition key_lt (a b : Z * Z * Z) : Prop :=
  a.1.1 < b.1.1 ∨ (a.1.1 = b.1.1 ∧ (a.1.2 < b.1.2 ∨ (a.1.2 = b.1.2 ∧ a.2 < b.2))).

(** *** What a run of [GetWeather] should deliver *)

(** The call of provider number [i] succeeds with the reading [w]: the
    goroutine finds the context live and the provider returns [w]. *)
Definition call_succeeded (env : Env) (city country : string) (i : nat)
    (w : WeatherData) : Prop :=
  ctx_Err env i = None ∧ fetch env i city country = FetchOk w.

(** The call of provider number [i] fails: the goroutine finds the context
    cancelled, or the provider returns an error. *)
Definition call_failed (env : Env) (city country : string) (i : nat) : Prop :=
  is_Some (ctx_Err env i) ∨ ∃ cause, fetch env i city country = FetchErr cause.

(** A stat whose average, min and max are all the one value [v]. *)
Definition single_value (s : AggregatedValue) (v : float) : Prop :=
  (Average s =? v)%float = true ∧ Min s = v ∧ Max s = v ∧ Values s = [v].

(** The reading of provider number [i], if its call is made and succeeds. *)
Definition reading_of (env : Env) (city country : string) (i : nat)
  : option WeatherData :=
  match ctx_Err env i with
  | Some _ => None
  | None =>
      match fetch env i city country with
      | FetchOk w => Some w
      | FetchErr _ => None
      end
  end.

(** The failure of provider number [i], if any: the context's error when the
    cancellation is seen before the call, else the provider's error under
    the provider's name. *)
Definition failure_of (env : Env) (city country : string) (i : nat) (p : Provider)
  : option string :=
  match ctx_Err env i with
  | Some err => Some err
  | None =>
      match fetch env i city country with
      | FetchOk _ => None
      | FetchErr cause => Some (Name p ++ ": " ++ cause)%string
      end
  end.

(** The successful readings and the failures, in registration order. *)
Definition successful_readings (env : Env) (city country : string)
    (ps : list Provider) : list WeatherData :=
  omap id (imap (fun i _ => reading_of env city country i) ps).

Definition captured_failures (env : Env) (city country : string)
    (ps : list Provider) : list string :=
  omap id (imap (failure_of env city country) ps).

(** A message carries the provider's name as a tag. *)
Definition tagged (p : Provider) (msg : string) : Prop :=
  ∃ cause, msg = (Name p ++ ": " ++ cause)%string.

(** Whether a string contains a comma. *)
Fixpoint has_comma (s : string) : bool :=
  match s with
  | EmptyString => false
  | String c s' => if Ascii.eqb c ","%char then true else has_comma s'
  end.

Definition comma_free (s : string) : Prop := has_comma s = false.

(** The range of Go's [int] on the 64-bit platforms. *)
Definition is_int (z : Z) : Prop := - 2 ^ 63 <= z < 2 ^ 63.

(** *** Sample data *)

Definition sample_reading (name : string) (temperature : float) (humidity : Z)
  : WeatherData :=
  {| wd_Provider := name;
     wd_Location := "Paris, FR";
     wd_Temperature := temperature;
     wd_FeelsLike := temperature;
     wd_Humidity := humidity;
     wd_Pressure := 1013;
     wd_WindSpeed := 3.5%float;
     wd_WindDirection := 180;
     wd_Description := "rain";
     wd_Icon := "10d";
     wd_Sunrise := 0;
     wd_Sunset := 0;
     wd_Timestamp := 0;
     wd_Units := "metric" |}.

(** An aggregator set up as [main] does it: a TTL of 10 minutes, then the
    adapters that are available, in turn; the one without a key is skipped. *)
Definition sample_aggregator : Aggregator :=
  let a0 := NewAggregator 10 in
  let a1 := snd (AddProvider {| Name := "OpenWeatherMap"; IsAvailable := true |} a0) in
  let a2 := snd (AddProvider {| Name := "Unconfigured"; IsAvailable := false |} a1) in
  let a3 := snd (AddProvider {| Name := "WeatherAPI"; IsAvailable := true |} a2) in
  snd (AddProvider {| Name := "Third"; IsAvailable := true |} a3).

(** A run in which only the second provider succeeds. *)
Definition env_one_success (w : WeatherData) : Env :=
  {| now_lookup := 1000; now_aggregate := 2000; now_save := 3000;
     ctx_Err := fun _ => None;
     fetch := fun i _ _ =>
       match i with
       | 1%nat => FetchOk w
       | _ => FetchErr "город не найден"
       end;
     schedule := [2%nat; 0%nat];
     map_order := [] |}.

(** The replies of that run, but for the third provider, which does as
    [third] says. *)
Definition replies_one_success (w : WeatherData) (third : Reply)
    (i : nat) (city country : string) : Reply :=
  match i with
  | 1%nat => Replied (Some w) None
  | 2%nat => third
  | _ => Replied None (Some "город не найден"%string)
  end.

(** A reading whose temperature is +Inf, whose feels-like temperature is
    -Inf and whose wind speed is a NaN. *)
Definition sample_reading_not_finite : WeatherData :=
  {| wd_Provider := "WeatherAPI";
     wd_Location := "Paris, FR";
     wd_Temperature := infinity;
     wd_FeelsLike := neg_infinity;
     wd_Humidity := 65;
     wd_Pressure := 1013;
     wd_WindSpeed := nan;
     wd_WindDirection := 180;
     wd_Description := "rain";
     wd_Icon := "10d";
     wd_Sunrise := 0;
     wd_Sunset := 0;
     wd_Timestamp := 0;
     wd_Units := "metric" |}.

(** A run in which every provider fails. *)
Definition env_all_fail : Env :=
  {| now_lookup := 1000; now_aggregate := 2000; now_save := 3000;
     ctx_Err := fun _ => None;
     fetch := fun _ _ _ => FetchErr "город не найден";
     schedule := [1%nat];
     map_order := [] |}.

(** A run whose context is cancelled before any goroutine reaches its select. *)
Definition env_cancelled : Env :=
  {| now_lookup := 1000; now_aggregate := 2000; now_save := 3000;
     ctx_Err := fun _ => Some "context canceled";
     fetch := fun _ _ _ => FetchErr "город не найден";
     schedule := [];
     map_order := [] |}.

(** A later run, one minute after the first. *)
Definition env_later (w : WeatherData) : Env :=
  {| now_lookup := 3000 + Minute; now_aggregate := 3001 + Minute;
     now_save := 3002 + Minute;
     ctx_Err := fun _ => None;
     fetch := fun _ _ _ => FetchOk w;
     schedule := [];
     map_order := [] |}.

(** An aggregate of one reading, as cached for Paris. *)
Definition sample_weather : AggregatedWeather :=
  aggregateWeather [] 2000 [sample_reading "WeatherAPI" 10%float 50] "Paris" "FR".

(** * The rest of the program

    The adapters of package providers, package config, and the parts of the
    main package that drive the aggregator. *)

From stdpp Require pretty.

(** Registering providers one after the other. *)
Definition register_all (ps : list Provider) (a : Aggregator) : Aggregator :=
  foldl (fun a p => snd (AddProvider p a)) a ps.

(** ** package providers: the two adapters *)

(** [time.Unix(sec, 0)] and the zero [time.Time], as instants in nanoseconds
    from the Unix epoch. *)
Definition Unix (sec : Z) : Time := sec * 1000000000.
Definition zeroTime : Time := Unix (-62135596800).

(** The [result] struct of [OpenWeatherProvider.GetWeather]; an entry of
    [ow_Weather] is a description and an icon. *)
Record OpenWeatherResult := {
  ow_Name : string;
  ow_Temp : float;
  ow_FeelsLike : float;
  ow_Humidity : Z;
  ow_Pressure : Z;
  ow_Speed : float;
  ow_Deg : Z;
  ow_Weather : list (string * string);
  ow_Sunrise : Z;
  ow_Sunset : Z
}.

(** The [result] struct of [WeatherAPIProvider.GetWeather]. *)
Record WeatherAPIResult := {
  wa_Name : string;
  wa_Country : string;
  wa_TempC : float;
  wa_FeelsLikeC : float;
  wa_Humidity : Z;
  wa_PressureMB : float;
  wa_WindKph : float;
  wa_WindDeg : Z;
  wa_Text : string;
  wa_Icon : string
}.

(** The body of a response, seen through the three decodings the adapters
    apply to it: [Decode(&result)] of either adapter (the text of the error,
    or the struct), and [Decode(&apiError)] of the WeatherAPI adapter (the
    message, when the decoding returns no error). *)
Record Body := {
  as_OpenWeather : string + OpenWeatherResult;
  as_WeatherAPI : string + WeatherAPIResult;
  as_apiError : option string
}.

(** What the HTTP exchange of one call comes to: [NewRequestWithContext]
    fails, [client.Do] fails, or a response arrives. *)
Inductive Exchange :=
  | RequestFailed (err : string)
  | DoFailed (err : string)
  | Responded (StatusCode : Z) (body : Body).

Definition StatusOK : Z := 200.
Definition StatusBadRequest : Z := 400.
Definition StatusUnauthorized : Z := 401.
Definition StatusNotFound : Z := 404.
Definition StatusInternalServerError : Z := 500.

Definition OpenWeather_Name : string := "OpenWeatherMap".

Definition OpenWeather_IsAvailable (apiKey : string) : bool :=
  bool_decide (apiKey ≠ ""%string).

Definition OpenWeather_GetWeather (apiKey : string) (x : Exchange) (now : Time)
    (city country : string) : FetchResult :=
  if negb (OpenWeather_IsAvailable apiKey)
  then FetchErr ("провайдер " ++ OpenWeather_Name ++ " не настроен")
  else
    match x with
    | RequestFailed err => FetchErr ("ошибка создания запроса: " ++ err)
    | DoFailed err => FetchErr ("ошибка HTTP запроса: " ++ err)
    | Responded status body =>
        if bool_decide (status ≠ StatusOK)
        then
          if bool_decide (status = StatusNotFound) then FetchErr "город не найден"
          else if bool_decide (status = StatusUnauthorized)
          then FetchErr "неверный API ключ"
          else FetchErr ("ошибка API: статус " ++ pretty.pretty status)
        else
          match as_OpenWeather body with
          | inl err => FetchErr ("ошибка парсинга JSON: " ++ err)
          | inr result =>
              match ow_Weather result with
              | [] => FetchErr "нет данных о погоде"
              | (description, icon) :: _ =>
                  FetchOk
                    {| wd_Provider := OpenWeather_Name;
                       wd_Location := ow_Name result ++ ", " ++ country;
                       wd_Temperature := ow_Temp result;
                       wd_FeelsLike := ow_FeelsLike result;
                       wd_Humidity := ow_Humidity result;
                       wd_Pressure := ow_Pressure result;
                       wd_WindSpeed := ow_Speed result;
                       wd_WindDirection := ow_Deg result;
                       wd_Description := description;
                       wd_Icon := icon;
                       wd_Sunrise := Unix (ow_Sunrise result);
                       wd_Sunset := Unix (ow_Sunset result);
                       wd_Timestamp := now;
                       wd_Units := "metric" |}
              end
          end
    end.

(** The integer part of a binary64 value, when it has one. *)
Definition trunc_float64 (f : float) : option Z :=
  match Prim2SF f with
  | S754_zero _ => Some 0
  | S754_finite s m e =>
      let magnitude :=
        if 0 <=? e then Zpos m * 2 ^ e else Zpos m / 2 ^ (- e) in
      Some (if s then - magnitude else magnitude)
  | _ => None
  end.

Definition WeatherAPI_Name : string := "WeatherAPI".

Definition WeatherAPI_IsAvailable (apiKey : string) : bool :=
  bool_decide (apiKey ≠ ""%string).

(** The adapters registered with an aggregator: the implementations of the
    [Provider] interface. *)
Inductive Adapter :=
  | OpenWeatherProvider (apiKey : string)
  | WeatherAPIProvider (apiKey : string).

Definition adapter_Name (ad : Adapter) : string :=
  match ad with
  | OpenWeatherProvider _ => OpenWeather_Name
  | WeatherAPIProvider _ => WeatherAPI_Name
  end.

Definition adapter_IsAvailable (ad : Adapter) : bool :=
  match ad with
  | OpenWeatherProvider apiKey => OpenWeather_IsAvailable apiKey
  | WeatherAPIProvider apiKey => WeatherAPI_IsAvailable apiKey
  end.

(** An adapter as the aggregator holds it. *)
Definition as_Provider (ad : Adapter) : Provider :=
  {| Name := adapter_Name ad; IsAvailable := adapter_IsAvailable ad |}.

Section Platform.

(** The conversion [int(f)] of a float that has no integer part within the
    range of [int]: Go leaves its value to the implementation. *)
Variable int_out_of_range : float -> Z.

(** The conversion [int(f)]: truncation towards zero. *)
Definition int_of_float64 (f : float) : Z :=
  match trunc_float64 f with
  | Some z =>
      if (- 2 ^ 63 <=? z) && (z <? 2 ^ 63) then z else int_out_of_range f
  | None => int_out_of_range f
  end.

Definition WeatherAPI_GetWeather (apiKey : string) (x : Exchange) (now : Time)
    (city country : string) : FetchResult :=
  if negb (WeatherAPI_IsAvailable apiKey)
  then FetchErr ("провайдер " ++ WeatherAPI_Name ++ " не настроен")
  else
    match x with
    | RequestFailed err => FetchErr ("ошибка создания запроса: " ++ err)
    | DoFailed err => FetchErr ("ошибка HTTP запроса: " ++ err)
    | Responded status body =>
        if bool_decide (status ≠ StatusOK)
        then
          match as_apiError body with
          | Some message =>
              if bool_decide (message ≠ ""%string)
              then FetchErr ("ошибка WeatherAPI: " ++ message)
              else FetchErr ("ошибка API: статус " ++ pretty.pretty status)
          | None => FetchErr ("ошибка API: статус " ++ pretty.pretty status)
          end
        else
          match as_WeatherAPI body with
          | inl err => FetchErr ("ошибка парсинга JSON: " ++ err)
          | inr result =>
              FetchOk
                {| wd_Provider := WeatherAPI_Name;
                   wd_Location := wa_Name result ++ ", " ++ wa_Country result;
                   wd_Temperature := wa_TempC result;
                   wd_FeelsLike := wa_FeelsLikeC result;
                   wd_Humidity := wa_Humidity result;
                   wd_Pressure := int_of_float64 (wa_PressureMB result);
                   wd_WindSpeed := (wa_WindKph result / 0x1.ccccccccccccdp+1)%float;
                   wd_WindDirection := wa_WindDeg result;
                   wd_Description := wa_Text result;
                   wd_Icon := "https:" ++ wa_Icon result;
                   wd_Sunrise := zeroTime;
                   wd_Sunset := zeroTime;
                   wd_Timestamp := now;
                   wd_Units := "metric" |}
          end
    end.

(** [p.GetWeather(ctx, city, country)] through the interface. *)
Definition adapter_GetWeather (ad : Adapter) (x : Exchange) (now : Time)
    (city country : string) : FetchResult :=
  match ad with
  | OpenWeatherProvider apiKey => OpenWeather_GetWeather apiKey x now city country
  | WeatherAPIProvider apiKey => WeatherAPI_GetWeather apiKey x now city country
  end.

(** The provider answers of a run in which the registered providers are the
    adapters [ads]: provider number [i] answers from its exchange [xs i],
    reading the clock at [nows i]. *)
Definition adapters_fetch (ads : list Adapter) (xs : nat -> Exchange)
    (nows : nat -> Time) (i : nat) (city country : string) : FetchResult :=
  match ads !! i with
  | Some ad => adapter_GetWeather ad (xs i) (nows i) city country
  | None => FetchErr ""
  end.

End Platform.

(** ** package config *)

Record Config := {
  OpenWeatherAPIKey : string;
  WeatherAPIKey : string;
  ServerPort : string;
  CacheDuration : Z;
  LogLevel : string
}.

(** [os.Getenv] on the environment of the process, as it is once
    [godotenv.Load] has run: the empty string for a variable that is not set. *)
Definition Getenv (environ : gmap string string) (key : string) : string :=
  default ""%string (environ !! key).

Definition getEnv (environ : gmap string string) (key defaultValue : string)
  : string :=
  let value := Getenv environ key in
  if bool_decide (value ≠ ""%string) then value else defaultValue.

(** The value of a decimal digit. *)
Definition digit_of (c : ascii) : option Z :=
  let n := Z.of_N (N_of_ascii c) - 48 in
  if (0 <=? n) && (n <=? 9) then Some n else None.

Fixpoint parse_digits (acc : Z) (s : string) : option Z :=
  match s with
  | EmptyString => Some acc
  | String c s' =>
      match digit_of c with
      | Some d => parse_digits (acc * 10 + d) s'
      | None => None
      end
  end.

(** [strconv.Atoi], by its contract: an optional sign, then one decimal digit
    or more and nothing else, denoting a number in the range of [int];
    [None] stands for its error. *)
Definition Atoi (s : string) : option Z :=
  match s with
  | EmptyString => None
  | String c rest =>
      let negative := bool_decide (c = "-"%char) in
      let digits :=
        if bool_decide (c = "-"%char) || bool_decide (c = "+"%char) then rest else s in
      match digits with
      | EmptyString => None
      | _ =>
          match parse_digits 0 digits with
          | Some n =>
              let v := if negative then - n else n in
              if (- 2 ^ 63 <=? v) && (v <? 2 ^ 63) then Some v else None
          | None => None
          end
      end
  end.

Definition getEnvAsInt (environ : gmap string string) (key : string)
    (defaultValue : Z) : Z :=
  let value := getEnv environ key "" in
  if bool_decide (value = ""%string) then defaultValue
  else
    match Atoi value with
    | Some intValue => intValue
    | None => defaultValue
    end.

Inductive LoadResult :=
  | Loaded (config : Config)
  | LoadError (err : string).

Definition Load (environ : gmap string string) : LoadResult :=
  let config :=
    {| OpenWeatherAPIKey := getEnv environ "OPENWEATHER_API_KEY" "";
       WeatherAPIKey := getEnv environ "WEATHERAPI_API_KEY" "";
       ServerPort := getEnv environ "SERVER_PORT" "8080";
       CacheDuration := getEnvAsInt environ "CACHE_DURATION" 10;
       LogLevel := getEnv environ "LOG_LEVEL" "info" |} in
  if bool_decide (OpenWeatherAPIKey config = ""%string)
     && bool_decide (WeatherAPIKey config = ""%string)
  then LoadError "необходим хотя бы один API ключ (OpenWeather или WeatherAPI)"
  else Loaded config.

(** ** package main *)

(** The aggregator as [main] sets it up from the configuration. *)
Definition setup (cfg : Config) : Aggregator :=
  let agg := NewAggregator (CacheDuration cfg) in
  let agg :=
    if bool_decide (OpenWeatherAPIKey cfg ≠ ""%string)
    then snd (AddProvider (as_Provider (OpenWeatherProvider (OpenWeatherAPIKey cfg))) agg)
    else agg in
  if bool_decide (WeatherAPIKey cfg ≠ ""%string)
  then snd (AddProvider (as_Provider (WeatherAPIProvider (WeatherAPIKey cfg))) agg)
  else agg.

(** The lines [showProviders] prints. *)
Definition showProviders (cfg : Config) : list string :=
  [ "📡 Доступные провайдеры погоды:"%string;
    "------------------------------"%string;
    if bool_decide (OpenWeatherAPIKey cfg ≠ ""%string)
    then "✓ OpenWeatherMap"%string
    else "✗ OpenWeatherMap (не настроен)"%string;
    if bool_decide (WeatherAPIKey cfg ≠ ""%string)
    then "✓ WeatherAPI"%string
    else "✗ WeatherAPI (не настроен)"%string ].

(** The value a handler hands to [json.NewEncoder(w).Encode]: not yet the
    body of the answer, see [body]. *)
Inductive Payload :=
  | ErrorResponse (error details : string)
  | Weather (weather : AggregatedWeather).

(** The answer of a handler: the status of the response, and the value
    handed to the encoder. *)
Record Response := {
  status_code : Z;
  payload : Payload
}.

Section Encoder.

(** What [json.NewEncoder(w).Encode(v)] writes for the value [v]; [None]
    when it returns an error, which it does before anything is written
    (encoding/json refuses a NaN and an infinity). *)
Variable Encode : Payload -> option string.

(** The body of the answer.  The handlers drop the error of [Encode]: a
    value that is not encoded leaves the body empty, under the status
    already set, which is 200 when [WriteHeader] was not called. *)
Definition body (resp : Response) : string :=
  match Encode (payload resp) with
  | Some text => text
  | None => ""%string
  end.

End Encoder.

(** [weatherHandler], from the values of the query parameters city and
    country (empty when absent); [env] is the run of the call of
    [GetWeather] under the request's context with its 15 s timeout. *)
Definition weatherHandler (env : Env) (city country : string)
  : M (Response * list string) :=
  if bool_decide (city = ""%string)
  then ret ({| status_code := StatusBadRequest;
               payload := ErrorResponse "Не указан город" "" |}, [])
  else
    let country := if bool_decide (country = ""%string) then "RU"%string else country in
    let* run := GetWeather env city country in
    match run with
    | (Err err, calls) =>
        ret ({| status_code := StatusInternalServerError;
                payload := ErrorResponse "Не удалось получить погоду" (Error err) |},
             calls)
    | (Ok weather, calls) =>
        ret ({| status_code := StatusOK; payload := Weather weather |}, calls)
    end.

(** What [healthHandler] reports about the providers. *)
Definition healthHandler (a : Aggregator) : Z * list string :=
  (GetProviderCount a, GetProvidersInfo a).

(** ** Notions the further statements use *)

(** The adapters [main] registers, in the order it registers them. *)
Definition configured_adapters (cfg : Config) : list Adapter :=
  (if bool_decide (OpenWeatherAPIKey cfg ≠ ""%string)
   then [OpenWeatherProvider (OpenWeatherAPIKey cfg)] else []) ++
  (if bool_decide (WeatherAPIKey cfg ≠ ""%string)
   then [WeatherAPIProvider (WeatherAPIKey cfg)] else []).

(** The names of the providers whose goroutine finds the context live. *)
Definition called_providers (env : Env) (ps : list Provider) : list string :=
  omap id (imap (fun i p => match ctx_Err env i with
                            | Some _ => None
                            | None => Some (Name p)
                            end) ps).

(** The names of the providers whose call is made and succeeds, in
    registration order. *)
Definition successful_providers (env : Env) (city country : string)
    (ps : list Provider) : list string :=
  omap id (imap (fun i p => match reading_of env city country i with
                            | Some _ => Some (Name p)
                            | None => None
                            end) ps).

(** A sample response body and a sample environment of the process. *)
Definition sample_body : Body :=
  {| as_OpenWeather :=
       inr {| ow_Name := "Paris"; ow_Temp := 21.5%float; ow_FeelsLike := 21%float;
              ow_Humidity := 60; ow_Pressure := 1015; ow_Speed := 4.5%float;
              ow_Deg := 270; ow_Weather := [("ясно", "01d")]%string;
              ow_Sunrise := 1700000000; ow_Sunset := 1700030000 |};
     as_WeatherAPI :=
       inr {| wa_Name := "Paris"; wa_Country := "France"; wa_TempC := 22%float;
              wa_FeelsLikeC := 23%float; wa_Humidity := 55;
              wa_PressureMB := 1013.25%float; wa_WindKph := 9%float;
              wa_WindDeg := 180; wa_Text := "Sunny";
              wa_Icon := "//cdn.weatherapi.com/64x64/day/113.png" |};
     as_apiError := None |}.

Definition sample_environ : gmap string string :=
  <["OPENWEATHER_API_KEY" := "k1"]>
    (<["CACHE_DURATION" := "15"]> (<["SERVER_PORT" := ""]> ∅)).

(** A run over the two adapters: the first gets a 404, the second a 200 with
    the sample body. *)
Definition env_adapters : Env :=
  {| now_lookup := 1000; now_aggregate := 2000; now_save := 3000;
     ctx_Err := fun _ => None;
     fetch := adapters_fetch (fun _ => 0)
                [OpenWeatherProvider "k1"; WeatherAPIProvider "k2"]
                (fun i => match i with
                          | 0%nat => Responded StatusNotFound sample_body
                          | _ => Responded StatusOK sample_body
                          end)
                (fun _ => 1500);
     schedule := [1%nat];
     map_order := [] |}.

Definition sample_config : Config :=
  {| OpenWeatherAPIKey := "k1"; WeatherAPIKey := "k2"; ServerPort := "8080";
     CacheDuration := 10; LogLevel := "info" |}.

(** * Properties *)

(** ** Unordered iteration *)

Section Permute.
Context {A : Type}.
Implicit Types (l : list A) (choices : list nat).

Lemma permute_nil choices : permute choices (@nil A) = [].
Proof. by destruct choices. Qed.

(** Whatever the choices, nothing is lost, duplicated or invented. *)
Lemma permute_Permutation choices l : permute choices l ≡ₚ l.
Proof.
  revert l. induction choices as [|k ks IH]; intros l; simpl; [done|].
  destruct (l !! (k `mod` length l)%nat) as [y|] eqn:Hy; [|done].
  rewrite IH. symmetry. by apply delete_Permutation.
Qed.

(** Conversely, every order is the outcome of some choices. *)
Lemma permute_complete l l' : l ≡ₚ l' → ∃ choices, permute choices l = l'.
Proof.
  revert l. induction l' as [|y l' IH]; intros l Hp.
  - apply Permutation_nil_r in Hp as ->. by exists [].
  - assert (y ∈ l) as Hin by (rewrite Hp; left).
    apply list_elem_of_lookup in Hin as [i Hi].
    pose proof (lookup_lt_Some _ _ _ Hi) as Hlt.
    destruct (IH (delete i l)) as [ks Hks].
    { apply (Permutation_cons_inv (a := y)).
      rewrite <- Hp. symmetry. by apply delete_Permutation. }
    exists (i :: ks). simpl.
    rewrite Nat.mod_small by done. by rewrite Hi, Hks.
Qed.

Lemma permute_length choices l : length (permute choices l) = length l.
Proof. by rewrite permute_Permutation. Qed.

Lemma elem_of_permute choices l x : x ∈ permute choices l ↔ x ∈ l.
Proof. by rewrite permute_Permutation. Qed.
End Permute.

(** ** [mostFrequent] *)

Lemma occurrences_nonneg v values : 0 <= occurrences v values.
Proof. unfold occurrences. lia. Qed.

Lemma occurrences_cons v x values :
  occurrences v (x :: values) =
  (if decide (x = v) then 1 else 0) + occurrences v values.
Proof.
  unfold occurrences. rewrite filter_cons.
  destruct (decide (x = v)); simpl; lia.
Qed.

Lemma occurrences_pos_elem_of v values : 0 < occurrences v values ↔ v ∈ values.
Proof.
  induction values as [|x values IH].
  - split; [unfold occurrences; simpl; lia | by intros ?%elem_of_nil].
  - rewrite occurrences_cons, elem_of_cons.
    pose proof (occurrences_nonneg v values).
    destruct (decide (x = v)) as [->|Hne].
    + split; [by left | lia].
    + split; [intros ?; right; apply IH; lia |].
      intros [->|Hin]; [done | apply IH in Hin; lia].
Qed.

(** The first loop: after it, [freq[v]] is the number of occurrences of [v]
    on top of what was there, and keys that do not occur are untouched. *)
Lemma tally_fold_lookup values (freq : gmap string Z) v :
  fold_left (fun freq v => <[v := default 0 (freq !! v) + 1]> freq) values freq !! v =
  if decide (occurrences v values = 0) then freq !! v
  else Some (default 0 (freq !! v) + occurrences v values).
Proof.
  revert freq. induction values as [|x values IH]; intros freq; simpl.
  - done.
  - rewrite IH, occurrences_cons.
    pose proof (occurrences_nonneg v values).
    destruct (decide (x = v)) as [->|Hne].
    + rewrite lookup_insert_eq. simpl.
      rewrite (decide_False (P := 1 + _ = 0)) by lia.
      destruct (decide (occurrences v values = 0)) as [->|]; f_equal; lia.
    + rewrite lookup_insert_ne by done.
      by destruct (decide (occurrences v values = 0)), (decide (0 + _ = 0)); try lia.
Qed.

Lemma tally_lookup values v :
  tally values !! v =
  if decide (occurrences v values = 0) then None else Some (occurrences v values).
Proof.
  unfold tally. rewrite tally_fold_lookup, lookup_empty.
  destruct (decide _); [done|]. simpl. f_equal; lia.
Qed.

Lemma elem_of_tally values v f :
  (v, f) ∈ map_to_list (tally values) ↔ f = occurrences v values ∧ 0 < f.
Proof.
  rewrite elem_of_map_to_list, tally_lookup.
  pose proof (occurrences_nonneg v values).
  destruct (decide _) as [Hz|Hnz]; split.
  - done.
  - intros [-> ?]. lia.
  - intros [= <-]. split; [done | lia].
  - by intros [-> ?].
Qed.

(** The second loop keeps the largest count seen so far and a key that has it. *)
Lemma mostFrequent_fold (l : list (string * Z)) (st : Z * string) :
  let st' := fold_left mostFrequent_step l st in
  fst st <= fst st' ∧
  (∀ v f, (v, f) ∈ l → f <= fst st') ∧
  (st' = st ∨ (snd st', fst st') ∈ l).
Proof.
  revert st. induction l as [|[v f] l IH]; intros [maxFreq result]; simpl.
  - split; [lia|]. split; [|by left]. by intros ?? ?%elem_of_nil.
  - destruct (IH (mostFrequent_step (maxFreq, result) (v, f))) as (Hle & Hall & Hin).
    unfold mostFrequent_step in *.
    destruct (Z.gtb_spec f maxFreq); simpl in *.
    + split; [lia|]. split.
      * intros v' f' [[= -> ->]|?]%elem_of_cons; [lia | eauto].
      * right. destruct Hin as [->|?]; [left | by right].
    + split; [lia|]. split.
      * intros v' f' [[= -> ->]|?]%elem_of_cons; [lia | eauto].
      * destruct Hin as [->|?]; [by left | right; by right].
Qed.

Lemma mostFrequent_max order values :
  values ≠ [] →
  mostFrequent order values ∈ values ∧
  ∀ v, occurrences v values <= occurrences (mostFrequent order values) values.
Proof.
  intros Hne. unfold mostFrequent.
  set (l := permute order (map_to_list (tally values))).
  destruct (mostFrequent_fold l (0, ""%string)) as (Hle & Hall & Hin).
  set (st' := fold_left mostFrequent_step l (0, ""%string)) in *.
  assert (Hl : ∀ v f, (v, f) ∈ l ↔ f = occurrences v values ∧ 0 < f).
  { intros v f. unfold l. by rewrite elem_of_permute, elem_of_tally. }
  assert (Hin' : (snd st', fst st') ∈ l).
  { destruct Hin as [Heq|?]; [|done]. exfalso.
    destruct values as [|x values]; [done|].
    assert (0 < occurrences x (x :: values)) as Hx
      by (apply occurrences_pos_elem_of; left).
    assert (occurrences x (x :: values) <= fst st') by (apply (Hall x), Hl; done).
    rewrite Heq in *. simpl in *. lia. }
  apply Hl in Hin' as [Hf Hpos]. split.
  - apply occurrences_pos_elem_of. lia.
  - intros v. rewrite <- Hf.
    pose proof (occurrences_nonneg v values).
    destruct (decide (occurrences v values = 0)); [lia|].
    apply (Hall v), Hl. lia.
Qed.

(** C5. For every non-empty sequence of strings, whatever the order in which
    the tally is ranged over, [mostFrequent] returns a member of the input
    whose number of occurrences no other value exceeds; on
    ["rain"; "rain"; "sun"] it returns "rain", and on the empty sequence it
    returns the empty string. *)
Theorem mostFrequent_spec :
  (∀ order values, values ≠ [] →
     mostFrequent order values ∈ values ∧
     ∀ v, occurrences v values <= occurrences (mostFrequent order values) values) ∧
  (∀ order, mostFrequent order ["rain"; "rain"; "sun"]%string = "rain"%string) ∧
  (∀ order, mostFrequent order [] = ""%string).
Proof.
  split; [exact mostFrequent_max|]. split.
  - intros order.
    destruct (mostFrequent_max order ["rain"; "rain"; "sun"]%string) as [Hin Hmax]; [done|].
    specialize (Hmax "rain"%string).
    apply elem_of_cons in Hin as [->|Hin]; [done|].
    apply elem_of_cons in Hin as [->|Hin]; [done|].
    apply elem_of_cons in Hin as [Heq|Hin]; [|by apply elem_of_nil in Hin].
    rewrite Heq in Hmax. vm_compute in Hmax. by exfalso; apply Hmax.
  - intros order. unfold mostFrequent, tally. simpl.
    by rewrite map_to_list_empty, permute_nil.
Qed.

(** On a tie either value may come out, depending on the order of the range. *)
Lemma mostFrequent_tie :
  mostFrequent [0%nat] ["rain"; "sun"]%string = "sun"%string ∧
  mostFrequent [1%nat] ["rain"; "sun"]%string = "rain"%string.
Proof. split; reflexivity. Qed.

Lemma mostFrequent_spec_witness :
  ["sun"; "rain"; "sun"]%string ≠ [] ∧
  mostFrequent [1%nat] ["sun"; "rain"; "sun"]%string ∈ ["sun"; "rain"; "sun"]%string ∧
  ∀ v, occurrences v ["sun"; "rain"; "sun"]%string
       <= occurrences (mostFrequent [1%nat] ["sun"; "rain"; "sun"]%string)
                      ["sun"; "rain"; "sun"]%string.
Proof.
  split; [done|].
  exact (proj1 mostFrequent_spec [1%nat] ["sun"; "rain"; "sun"]%string
               ltac:(done)).
Defined.

(** ** Binary64 facts *)

Lemma digits2_pos_bound (m : positive) : Zpos m < 2 ^ Zpos (digits2_pos m).
Proof.
  induction m as [m IH|m IH|]; simpl digits2_pos.
  - rewrite Pos2Z.inj_succ, Z.pow_succ_r by lia. lia.
  - rewrite Pos2Z.inj_succ, Z.pow_succ_r by lia. lia.
  - reflexivity.
Qed.

Lemma bounded_inv m e :
  bounded prec emax m e = true →
  Z.max (Zpos (digits2_pos m) + e - 53) (-1074) = e ∧ e <= 971.
Proof.
  unfold bounded, canonical_mantissa, fexp, emin, emax, prec.
  intros [Hc He]%andb_prop. apply Z.eqb_eq in Hc. apply Z.leb_le in He. done.
Qed.

(** A finite value is a zero or a sign, a mantissa and an exponent in range. *)
Lemma is_finite_cases (x : float) :
  finite x →
  (∃ s, Prim2SF x = S754_zero s) ∨
  (∃ s m e, Prim2SF x = S754_finite s m e ∧ bounded prec emax m e = true).
Proof.
  unfold finite, is_finite, is_nan, is_infinity.
  rewrite (FloatAxioms.eqb_spec x x), (FloatAxioms.eqb_spec (abs x) infinity),
    FloatAxioms.abs_spec.
  pose proof (Prim2SF_valid x) as Hv.
  change (Prim2SF infinity) with (S754_infinity false).
  destruct (Prim2SF x) as [s|s| |s m e].
  - intros _. left. by exists s.
  - by destruct s.
  - done.
  - intros _. right. by exists s, m, e.
Qed.

Lemma finite_not_nan (x : float) : finite x → Prim2SF x ≠ S754_nan.
Proof.
  intros [[s Hx]|(s & m & e & Hx & _)]%is_finite_cases; by rewrite Hx.
Qed.

(** Below [MaxFloat64] or equal to it: a finite value that is not smaller
    than the largest finite value is that value. *)
Lemma ltb_MaxFloat64_false (v : float) :
  finite v → (v <? MaxFloat64)%float = false → v = MaxFloat64.
Proof.
  intros Hfin%is_finite_cases. rewrite FloatAxioms.ltb_spec. intros Hlt.
  apply Prim2SF_inj. revert Hlt.
  change (Prim2SF MaxFloat64) with (S754_finite false 9007199254740991 971).
  destruct Hfin as [[s Hx]|(s & m & e & Hx & Hb)]; rewrite Hx; clear Hx.
  - done.
  - apply bounded_inv in Hb as [Hc He].
    pose proof (digits2_pos_bound m) as Hd.
    unfold SFltb, SFcompare.
    destruct s; [done|].
    destruct (Z.compare_spec e 971) as [->|?|?]; [|done|lia].
    assert (Zpos (digits2_pos m) = 53) as Hd53 by lia.
    rewrite Hd53 in Hd.
    destruct (Pos.compare_cont Eq m 9007199254740991) eqn:Hcmp; [|done|].
    + by apply Pos.compare_eq in Hcmp as ->.
    + apply Pos.compare_gt_iff in Hcmp. lia.
Qed.

Lemma gtb_neg_MaxFloat64_false (v : float) :
  finite v → fgtb v (- MaxFloat64) = false → v = (- MaxFloat64)%float.
Proof.
  intros Hfin%is_finite_cases. unfold fgtb. rewrite FloatAxioms.ltb_spec. intros Hlt.
  apply Prim2SF_inj. revert Hlt.
  change (Prim2SF (- MaxFloat64)) with (S754_finite true 9007199254740991 971).
  destruct Hfin as [[s Hx]|(s & m & e & Hx & Hb)]; rewrite Hx; clear Hx.
  - done.
  - apply bounded_inv in Hb as [Hc He].
    pose proof (digits2_pos_bound m) as Hd.
    unfold SFltb, SFcompare.
    destruct s; [|done].
    destruct (Z.compare_spec 971 e) as [<-|?|?]; [|exfalso; lia|done].
    assert (Zpos (digits2_pos m) = 53) as Hd53 by lia.
    rewrite Hd53 in Hd.
    destruct (Pos.compare_cont Eq 9007199254740991 m) eqn:Hcmp; [| |done].
    + by apply Pos.compare_eq in Hcmp as <-.
    + change (9007199254740991 < m)%positive in Hcmp. lia.
Qed.

(** *** Dividing by one is exact *)

Lemma div_eucl_mul (q b : Z) : 0 < b → Z.div_eucl (q * b) b = (q, 0).
Proof.
  intros Hb. rewrite (surjective_pairing (Z.div_eucl (q * b) b)).
  change (fst (Z.div_eucl (q * b) b)) with (q * b / b).
  change (snd (Z.div_eucl (q * b) b)) with ((q * b) mod b).
  rewrite Z_div_mult, Z_mod_mult by lia. done.
Qed.

Lemma shr_fexp_canonical m e :
  Z.max (Zpos (digits2_pos m) + e - 53) (-1074) = e →
  shr_fexp prec emax (Zpos m) e loc_Exact =
  ({| shr_m := Zpos m; shr_r := false; shr_s := false |}, e).
Proof.
  intros Hc. unfold shr_fexp, shr, fexp, emin, prec, emax.
  cbn [Zdigits2 shr_record_of_loc].
  replace (Z.max (Zpos (digits2_pos m) + e - 53) (3 - 1024 - 53) - e) with 0 by lia.
  done.
Qed.

Lemma binary_round_aux_canonical s m e :
  bounded prec emax m e = true →
  binary_round_aux prec emax s (Zpos m) e loc_Exact = S754_finite s m e.
Proof.
  intros [Hc He]%bounded_inv. unfold binary_round_aux.
  rewrite shr_fexp_canonical by done.
  cbn [shr_m loc_of_shr_record round_nearest_even].
  rewrite shr_fexp_canonical by done.
  cbn [shr_m]. unfold emax, prec.
  destruct (Z.leb_spec e (1024 - 53)); [done | lia].
Qed.

Lemma binary_round_aux_double s m e :
  bounded prec emax m e = true → e ≠ -1074 →
  binary_round_aux prec emax s (Zpos m~0) (e - 1) loc_Exact = S754_finite s m e.
Proof.
  intros Hb Hne. pose proof Hb as [Hc He]%bounded_inv. unfold binary_round_aux.
  assert (shr_fexp prec emax (Zpos m~0) (e - 1) loc_Exact =
          ({| shr_m := Zpos m; shr_r := false; shr_s := false |}, e)) as ->.
  { unfold shr_fexp, shr, fexp, emin, prec, emax.
    cbn [Zdigits2 shr_record_of_loc digits2_pos].
    rewrite Pos2Z.inj_succ.
    replace (Z.max (Z.succ (Zpos (digits2_pos m)) + (e - 1) - 53) (3 - 1024 - 53) - (e - 1))
      with 1 by lia.
    cbn [iter_pos shr_1 orb]. f_equal. lia. }
  cbn [shr_m loc_of_shr_record round_nearest_even].
  rewrite shr_fexp_canonical by done.
  cbn [shr_m]. unfold emax, prec.
  destruct (Z.leb_spec e (1024 - 53)); [done | lia].
Qed.

Lemma SFdiv_one s m e :
  bounded prec emax m e = true →
  SFdiv prec emax (S754_finite s m e) (S754_finite false 4503599627370496 (-52))
  = S754_finite s m e.
Proof.
  intros Hb. pose proof Hb as [Hc He]%bounded_inv.
  pose proof (Pos2Z.is_pos (digits2_pos m)) as Hdpos.
  unfold SFdiv. rewrite xorb_false_r.
  destruct (decide (e = -1074)) as [->|Hne].
  - assert (SFdiv_core_binary prec emax (Zpos m) (-1074) 4503599627370496 (-52)
            = (Zpos m, -1074, loc_Exact)) as ->.
    { unfold SFdiv_core_binary, fexp, emin, prec, emax. cbv zeta.
      cbn [Zdigits2]. change (digits2_pos 4503599627370496) with 53%positive.
      replace (Z.min (Z.max (Zpos (digits2_pos m) + -1074 - (53 + -52) - 53) (3 - 1024 - 53))
                     (-1074 - -52)) with (-1074) by lia.
      change (-1074 - -52 - -1074) with 52. cbv iota.
      rewrite Z.shiftl_mul_pow2 by lia.
      change (2 ^ 52) with 4503599627370496.
      rewrite div_eucl_mul by lia. done. }
    by apply binary_round_aux_canonical.
  - assert (SFdiv_core_binary prec emax (Zpos m) e 4503599627370496 (-52)
            = (Zpos m~0, e - 1, loc_Exact)) as ->.
    { unfold SFdiv_core_binary, fexp, emin, prec, emax. cbv zeta.
      cbn [Zdigits2]. change (digits2_pos 4503599627370496) with 53%positive.
      replace (Z.min (Z.max (Zpos (digits2_pos m) + e - (53 + -52) - 53) (3 - 1024 - 53))
                     (e - -52)) with (e - 1) by lia.
      replace (e - -52 - (e - 1)) with 53 by lia. cbv iota.
      rewrite Z.shiftl_mul_pow2 by lia.
      replace (Zpos m * 2 ^ 53) with (Zpos m~0 * 4503599627370496) by lia.
      rewrite div_eucl_mul by lia. done. }
    by apply binary_round_aux_double.
Qed.

(** The mean of a single finite value, as [aggregateValues] computes it,
    compares equal to the value (for -0 it is +0, which is [==] to it). *)
Lemma mean_of_one_finite (v : float) :
  finite v → ((0 + v) / 1 =? v)%float = true.
Proof.
  intros Hfin%is_finite_cases.
  rewrite FloatAxioms.eqb_spec, div_spec, add_spec.
  change (Prim2SF 1) with (S754_finite false 4503599627370496 (-52)).
  change (Prim2SF 0) with (S754_zero false).
  destruct Hfin as [[s Hx]|(s & m & e & Hx & Hb)]; rewrite Hx; clear Hx.
  - by destruct s.
  - unfold SF64add, SFadd, SF64div. rewrite SFdiv_one by done.
    unfold SFeqb, SFcompare.
    rewrite Z.compare_refl, Pos.compare_cont_refl. by destruct s.
Qed.

(** *** The order [<=?] on values that are not NaN *)

Lemma SFcompare_key (x y : spec_float) :
  x ≠ S754_nan → y ≠ S754_nan →
  match SFcompare x y with
  | Some Lt => key_lt (SFkey x) (SFkey y)
  | Some Eq => SFkey x = SFkey y
  | Some Gt => key_lt (SFkey y) (SFkey x)
  | None => False
  end.
Proof.
  intros Hx Hy. unfold key_lt.
  destruct x as [sx|sx| |sx mx ex], y as [sy|sy| |sy my ey]; try done;
    try destruct sx; try destruct sy; cbn; try lia; try done.
  - destruct (Z.compare_spec ex ey) as [->|?|?]; cbn; try lia.
    change (Pos.compare_cont Eq mx my) with (Pos.compare mx my).
    destruct (Pos.compare_spec mx my) as [->|?|?]; cbn; try lia; done.
  - destruct (Z.compare_spec ex ey) as [->|?|?]; cbn; try lia.
    change (Pos.compare_cont Eq mx my) with (Pos.compare mx my).
    destruct (Pos.compare_spec mx my) as [->|?|?]; cbn; try lia; done.
Qed.

Lemma SFleb_key x y :
  x ≠ S754_nan → y ≠ S754_nan → SFleb x y = true ↔ key_le (SFkey x) (SFkey y).
Proof.
  intros Hx Hy. pose proof (SFcompare_key x y Hx Hy) as H.
  unfold SFleb. unfold key_le, key_lt in *.
  destruct (SFcompare x y) as [[]|]; [| | |done].
  - rewrite H. split; [lia | done].
  - split; [lia | done].
  - split; [done | lia].
Qed.

Lemma SFltb_key x y :
  x ≠ S754_nan → y ≠ S754_nan → SFltb x y = true ↔ key_lt (SFkey x) (SFkey y).
Proof.
  intros Hx Hy. pose proof (SFcompare_key x y Hx Hy) as H.
  unfold SFltb. unfold key_le, key_lt in *.
  destruct (SFcompare x y) as [[]|]; [| | |done].
  - rewrite H. split; [done | lia].
  - split; [lia | done].
  - split; [done | lia].
Qed.

Lemma fleb_refl (v : float) : finite v → (v <=? v)%float = true.
Proof.
  intros Hv%finite_not_nan. rewrite FloatAxioms.leb_spec.
  apply SFleb_key; [done..|]. unfold key_le. lia.
Qed.

Lemma fleb_trans (a b c : float) :
  finite a → finite b → finite c →
  (a <=? b)%float = true → (b <=? c)%float = true → (a <=? c)%float = true.
Proof.
  intros Ha%finite_not_nan Hb%finite_not_nan Hc%finite_not_nan.
  rewrite !FloatAxioms.leb_spec, !SFleb_key by done.
  unfold key_le. lia.
Qed.

Lemma fltb_leb (a b : float) :
  finite a → finite b → (a <? b)%float = true → (a <=? b)%float = true.
Proof.
  intros Ha%finite_not_nan Hb%finite_not_nan.
  rewrite FloatAxioms.ltb_spec, FloatAxioms.leb_spec, SFleb_key, SFltb_key by done.
  unfold key_le, key_lt. lia.
Qed.

Lemma fltb_false_leb (a b : float) :
  finite a → finite b → (a <? b)%float = false → (b <=? a)%float = true.
Proof.
  intros Ha%finite_not_nan Hb%finite_not_nan.
  rewrite FloatAxioms.ltb_spec, FloatAxioms.leb_spec, SFleb_key by done.
  intros Hlt. assert (¬ key_lt (SFkey (Prim2SF a)) (SFkey (Prim2SF b))) as Hn.
  { rewrite <- SFltb_key by done. by rewrite Hlt. }
  unfold key_le, key_lt in *. lia.
Qed.

(** ** [aggregateValues] *)

Lemma fmin_finite a b : finite a → finite b → finite (fmin a b).
Proof. intros. unfold fmin. by destruct (b <? a)%float. Qed.

Lemma fmax_finite a b : finite a → finite b → finite (fmax a b).
Proof. intros. unfold fmax. by destruct (a <? b)%float. Qed.

(** Folding [fmin] from [a] yields [a] or a member of the list, and it is
    below [a] and below every member. *)
Lemma fold_fmin_spec (values : list float) (a : float) :
  finite a → Forall finite values →
  let m := fold_left fmin values a in
  (m = a ∨ m ∈ values) ∧ finite m ∧ (m <=? a)%float = true ∧
  ∀ u, u ∈ values → (m <=? u)%float = true.
Proof.
  intros Ha Hall. revert a Ha.
  induction Hall as [|x values Hx Hall IH]; intros a Ha; simpl.
  - split; [by left|]. split; [done|]. split; [by apply fleb_refl|].
    by intros u ?%elem_of_nil.
  - pose proof (fmin_finite a x Ha Hx) as Hfin.
    destruct (IH (fmin a x) Hfin) as (Hin & Hm & Hle & Hbelow).
    set (m := fold_left fmin values (fmin a x)) in *.
    assert ((fmin a x <=? a)%float = true ∧ (fmin a x <=? x)%float = true) as [Hfa Hfx].
    { unfold fmin. destruct (x <? a)%float eqn:Hlt.
      - split; [by apply fltb_leb | by apply fleb_refl].
      - split; [by apply fleb_refl | by apply fltb_false_leb]. }
    split; [|split; [done|split]].
    + destruct Hin as [->|Hin]; [|right; by right].
      unfold fmin. destruct (x <? a)%float; [right; left | by left].
    + by apply (fleb_trans m (fmin a x) a).
    + intros u [->|Hu]%elem_of_cons; [|by apply Hbelow].
      by apply (fleb_trans m (fmin a x) x).
Qed.

Lemma fold_fmax_spec (values : list float) (a : float) :
  finite a → Forall finite values →
  let m := fold_left fmax values a in
  (m = a ∨ m ∈ values) ∧ finite m ∧ (a <=? m)%float = true ∧
  ∀ u, u ∈ values → (u <=? m)%float = true.
Proof.
  intros Ha Hall. revert a Ha.
  induction Hall as [|x values Hx Hall IH]; intros a Ha; simpl.
  - split; [by left|]. split; [done|]. split; [by apply fleb_refl|].
    by intros u ?%elem_of_nil.
  - pose proof (fmax_finite a x Ha Hx) as Hfin.
    destruct (IH (fmax a x) Hfin) as (Hin & Hm & Hle & Habove).
    set (m := fold_left fmax values (fmax a x)) in *.
    assert ((a <=? fmax a x)%float = true ∧ (x <=? fmax a x)%float = true) as [Hfa Hfx].
    { unfold fmax. destruct (a <? x)%float eqn:Hlt.
      - split; [by apply fltb_leb | by apply fleb_refl].
      - split; [by apply fleb_refl | by apply fltb_false_leb]. }
    split; [|split; [done|split]].
    + destruct Hin as [->|Hin]; [|right; by right].
      unfold fmax. destruct (a <? x)%float; [right; left | by left].
    + by apply (fleb_trans a (fmax a x) m).
    + intros u [->|Hu]%elem_of_cons; [|by apply Habove].
      by apply (fleb_trans x (fmax a x) m).
Qed.

(** The reference minimum and maximum are exact on finite values. *)
Lemma list_min_is_minimum (values : list float) :
  values ≠ [] → Forall finite values → is_minimum (list_min values) values.
Proof.
  intros Hne Hall. destruct Hall as [|v values Hv Hall]; [done|]. simpl.
  destruct (fold_fmin_spec values v Hv Hall) as (Hin & _ & Hle & Hbelow).
  split.
  - destruct Hin as [->|?]; [left | by right].
  - intros u [->|Hu]%elem_of_cons; [done | by apply Hbelow].
Qed.

Lemma list_max_is_maximum (values : list float) :
  values ≠ [] → Forall finite values → is_maximum (list_max values) values.
Proof.
  intros Hne Hall. destruct Hall as [|v values Hv Hall]; [done|]. simpl.
  destruct (fold_fmax_spec values v Hv Hall) as (Hin & _ & Hle & Habove).
  split.
  - destruct Hin as [->|?]; [left | by right].
  - intros u [->|Hu]%elem_of_cons; [done | by apply Habove].
Qed.

(** The single loop of [aggregateValues] is three folds run side by side. *)
Lemma aggregateValues_fold (values : list float) (sum min max : float) :
  fold_left aggregateValues_step values (sum, min, max) =
  (fold_left add values sum, fold_left fmin values min, fold_left fmax values max).
Proof.
  revert sum min max. induction values as [|v values IH]; intros sum min max; [done|].
  simpl. by rewrite IH.
Qed.

Lemma aggregateValues_cons (v : float) (values : list float) :
  aggregateValues (v :: values) =
  {| Average := (fold_left add values (0 + v)
                 / float64_of_int (Z.of_nat (length (v :: values))))%float;
     Min := fold_left fmin values (fmin MaxFloat64 v);
     Max := fold_left fmax values (fmax (- MaxFloat64) v);
     Values := v :: values |}.
Proof.
  unfold aggregateValues.
  destruct (Z.eqb_spec (Z.of_nat (length (v :: values))) 0) as [Hz|_].
  - simpl in Hz. lia.
  - by rewrite aggregateValues_fold.
Qed.

(** The sentinels vanish as soon as the first value is finite. *)
Lemma fmin_MaxFloat64 (v : float) : finite v → fmin MaxFloat64 v = v.
Proof.
  intros Hv. unfold fmin. destruct (v <? MaxFloat64)%float eqn:Hlt; [done|].
  symmetry. by apply ltb_MaxFloat64_false.
Qed.

Lemma fmax_neg_MaxFloat64 (v : float) : finite v → fmax (- MaxFloat64) v = v.
Proof.
  intros Hv. unfold fmax. destruct (- MaxFloat64 <? v)%float eqn:Hlt; [done|].
  symmetry. by apply gtb_neg_MaxFloat64_false.
Qed.

(** On finite input the code and the reference definition agree. *)
Lemma aggregateValues_refines (values : list float) :
  Forall finite values → aggregateValues values = aggregate_numeric values.
Proof.
  intros Hall. destruct Hall as [|v values Hv Hall]; [done|].
  rewrite aggregateValues_cons, fmin_MaxFloat64, fmax_neg_MaxFloat64 by done.
  done.
Qed.

(** What holds of the reducer. [aggregateValues] returns the zero-valued
    result on the empty sequence; on every non-empty sequence the average is
    the sum of the values divided by their count, with no rounding step
    added, and the values are returned unchanged; when the values are finite,
    min and max are the exact minimum and maximum of the input, and the whole
    result is that of the reference definition. *)
Theorem aggregateValues_spec :
  aggregateValues [] =
    {| Average := 0%float; Min := 0%float; Max := 0%float; Values := [] |} ∧
  ∀ values, values ≠ [] →
    Average (aggregateValues values) =
      (list_sum values / float64_of_int (Z.of_nat (length values)))%float ∧
    Values (aggregateValues values) = values ∧
    (Forall finite values →
       is_minimum (Min (aggregateValues values)) values ∧
       is_maximum (Max (aggregateValues values)) values ∧
       aggregateValues values = aggregate_numeric values).
Proof.
  split; [done|]. intros values Hne.
  destruct values as [|v values]; [done|].
  rewrite aggregateValues_cons. cbn [Average Values]. split; [done|]. split; [done|].
  intros Hall. rewrite <- aggregateValues_cons, aggregateValues_refines by done.
  split; [by apply list_min_is_minimum|]. split; [by apply list_max_is_maximum|]. done.
Qed.

Lemma aggregateValues_spec_witness :
  [10%float; 20%float] ≠ [] ∧ Forall finite [10%float; 20%float] ∧
  is_minimum (Min (aggregateValues [10%float; 20%float])) [10%float; 20%float] ∧
  is_maximum (Max (aggregateValues [10%float; 20%float])) [10%float; 20%float] ∧
  aggregateValues [10%float; 20%float] = aggregate_numeric [10%float; 20%float].
Proof.
  assert ([10%float; 20%float] ≠ []) as Hne by done.
  assert (Forall finite [10%float; 20%float]) as Hall
    by (repeat constructor; reflexivity).
  split; [done|]. split; [done|].
  exact (proj2 (proj2 (proj2 aggregateValues_spec [10%float; 20%float] Hne)) Hall).
Defined.

Lemma MaxFloat64_not_infinity : MaxFloat64 ≠ infinity.
Proof.
  intros H. assert (is_finite MaxFloat64 = is_finite infinity) as Hf by (by rewrite H).
  vm_compute in Hf. discriminate.
Qed.

Lemma neg_MaxFloat64_not_neg_infinity : (- MaxFloat64)%float ≠ neg_infinity.
Proof.
  intros H. assert (is_finite (- MaxFloat64) = is_finite neg_infinity) as Hf by (by rewrite H).
  vm_compute in Hf. discriminate.
Qed.

(** C4. The reducer at the sequence whose only value is +Inf: the minimum
    returned is the sentinel [MaxFloat64], which is not a value of the input,
    so the result is not that of the reference definition; symmetrically the
    maximum of the sequence whose only value is -Inf is [- MaxFloat64]. *)
Lemma aggregateValues_infinity :
  Min (aggregateValues [infinity]) = MaxFloat64 ∧
  ¬ is_minimum (Min (aggregateValues [infinity])) [infinity] ∧
  aggregateValues [infinity] ≠ aggregate_numeric [infinity] ∧
  Max (aggregateValues [neg_infinity]) = (- MaxFloat64)%float ∧
  ¬ is_maximum (Max (aggregateValues [neg_infinity])) [neg_infinity].
Proof.
  assert (Min (aggregateValues [infinity]) = MaxFloat64) as Hmin by reflexivity.
  assert (Max (aggregateValues [neg_infinity]) = (- MaxFloat64)%float) as Hmax
    by reflexivity.
  split; [done|]. split; [|split; [|split; [done|]]].
  - rewrite Hmin. intros [Hin _]. apply list_elem_of_singleton in Hin.
    by apply MaxFloat64_not_infinity.
  - intros Heq. apply (f_equal Min) in Heq. rewrite Hmin in Heq.
    by apply MaxFloat64_not_infinity.
  - rewrite Hmax. intros [Hin _]. apply list_elem_of_singleton in Hin.
    by apply neg_MaxFloat64_not_neg_infinity.
Qed.

(** *** Converting an [int] yields a finite value *)

Lemma digits2_pos_lower (m : positive) : 2 ^ (Zpos (digits2_pos m) - 1) <= Zpos m.
Proof.
  induction m as [m IH|m IH|]; simpl digits2_pos.
  - rewrite Pos2Z.inj_succ. replace (Z.succ (Zpos (digits2_pos m)) - 1)
      with (Z.succ (Zpos (digits2_pos m) - 1)) by lia.
    rewrite Z.pow_succ_r by lia. lia.
  - rewrite Pos2Z.inj_succ. replace (Z.succ (Zpos (digits2_pos m)) - 1)
      with (Z.succ (Zpos (digits2_pos m) - 1)) by lia.
    rewrite Z.pow_succ_r by lia. lia.
  - done.
Qed.

Lemma digits2_pos_unique (m : positive) (k : Z) :
  2 ^ (k - 1) <= Zpos m < 2 ^ k → Zpos (digits2_pos m) = k.
Proof.
  intros [Hlo Hhi].
  pose proof (digits2_pos_bound m) as Hb. pose proof (digits2_pos_lower m) as Hl.
  set (d := Zpos (digits2_pos m)) in *.
  assert (0 < d) by (unfold d; lia).
  destruct (Z.lt_trichotomy d k) as [Hlt|[->|Hgt]]; [|done|].
  - assert (2 ^ d <= 2 ^ (k - 1)) by (apply Z.pow_le_mono_r; lia). lia.
  - assert (0 < k).
    { destruct (Z.le_gt_cases k 0) as [Hk|]; [|done].
      assert (2 ^ k <= 2 ^ 0) by (apply Z.pow_le_mono_r_iff; lia || (destruct k; simpl; lia)).
      simpl in *. lia. }
    assert (2 ^ k <= 2 ^ (d - 1)) by (apply Z.pow_le_mono_r; lia). lia.
Qed.

Lemma shr_1_m (r : shr_record) : 0 <= shr_m r → shr_m (shr_1 r) = shr_m r / 2 .
Proof.
  destruct r as [[|[p|p|]|p] rb sb]; cbn [shr_1 shr_m]; intros H; try lia.
  - done.
  - rewrite Pos2Z.inj_xI. apply Z.div_unique with 1; lia.
  - rewrite Pos2Z.inj_xO. apply Z.div_unique with 0; lia.
  - done.
Qed.

Lemma iter_shr_1_m (k : positive) (r : shr_record) :
  0 <= shr_m r →
  shr_m (SpecFloat.iter_pos shr_1 k r) = shr_m r / 2 ^ Zpos k.
Proof.
  revert r. induction k as [k IH|k IH|]; intros r Hr; cbn [SpecFloat.iter_pos].
  - assert (0 <= shr_m (shr_1 r)) as H1 by (rewrite shr_1_m by done; apply Z.div_pos; lia).
    assert (0 <= shr_m (SpecFloat.iter_pos shr_1 k (shr_1 r))) as H2
      by (rewrite IH by done; apply Z.div_pos; lia).
    rewrite IH, IH, shr_1_m by done.
    rewrite !Z.div_div by lia. f_equal.
    replace (Zpos k~1) with (1 + Zpos k + Zpos k) by lia.
    rewrite !Z.pow_add_r by lia. change (2 ^ 1) with 2. ring.
  - assert (0 <= shr_m (SpecFloat.iter_pos shr_1 k r)) as H2
      by (rewrite IH by done; apply Z.div_pos; lia).
    rewrite IH, IH by done.
    rewrite !Z.div_div by lia. f_equal.
    replace (Zpos k~0) with (Zpos k + Zpos k) by lia.
    rewrite !Z.pow_add_r by lia. ring.
  - by apply shr_1_m.
Qed.

Lemma round_nearest_even_bounds (q : Z) (l : location) :
  q <= round_nearest_even q l <= q + 1.
Proof.
  destruct l as [|[]]; cbn [round_nearest_even]; try lia.
  destruct (Z.even q); lia.
Qed.

Lemma bounded_intro m e :
  Z.max (Zpos (digits2_pos m) + e - 53) (-1074) = e → e <= 971 →
  bounded prec emax m e = true.
Proof.
  intros Hc He. unfold bounded, canonical_mantissa, fexp, emin, emax, prec.
  apply andb_true_intro. split; [apply Z.eqb_eq | apply Z.leb_le]; lia.
Qed.

Lemma digits2_pos_iter_xO (m k : positive) :
  Zpos (digits2_pos (Pos.iter xO m k)) = Zpos (digits2_pos m) + Zpos k.
Proof.
  induction k as [|k IH] using Pos.peano_ind.
  - cbn [Pos.iter digits2_pos]. lia.
  - rewrite Pos.iter_succ. cbn [digits2_pos]. lia.
Qed.

Lemma binary_round_int s m :
  Zpos m < 2 ^ 64 →
  ∃ m' e', binary_round prec emax s m 0 = S754_finite s m' e' ∧
           bounded prec emax m' e' = true.
Proof.
  intros Hm.
  pose proof (digits2_pos_bound m) as Hup. pose proof (digits2_pos_lower m) as Hlo.
  pose proof (Pos2Z.is_pos (digits2_pos m)) as Hdpos.
  assert (Zpos (digits2_pos m) <= 64) as Hd64.
  { destruct (Z.le_gt_cases (Zpos (digits2_pos m)) 64) as [|Hgt]; [done|].
    assert (2 ^ 64 <= 2 ^ (Zpos (digits2_pos m) - 1)) by (apply Z.pow_le_mono_r; lia). lia. }
  unfold binary_round, shl_align, fexp, emin, prec, emax.
  replace (Z.max (Zpos (digits2_pos m) + 0 - 53) (3 - 1024 - 53))
    with (Zpos (digits2_pos m) - 53) by lia.
  destruct (Zpos (digits2_pos m) - 53 - 0) as [|k|k] eqn:Hk.
  - exists m, 0. split.
    + apply binary_round_aux_canonical, bounded_intro; lia.
    + apply bounded_intro; lia.
  - assert (Zpos k <= 11) as Hk11 by lia.
    set (r1 := SpecFloat.iter_pos shr_1 k
                 {| shr_m := Zpos m; shr_r := false; shr_s := false |}).
    assert (shr_fexp 53 1024 (Zpos m) 0 loc_Exact = (r1, Zpos k)) as Hs1.
    { unfold shr_fexp, shr, fexp, emin. cbn [Zdigits2 shr_record_of_loc].
      replace (Z.max (Zpos (digits2_pos m) + 0 - 53) (3 - 1024 - 53) - 0)
        with (Zpos k) by lia.
      done. }
    assert (2 ^ 52 <= shr_m r1 < 2 ^ 53) as Hq.
    { unfold r1. rewrite iter_shr_1_m by (cbn [shr_m]; lia). cbn [shr_m].
      replace (Zpos (digits2_pos m)) with (53 + Zpos k) in Hup, Hlo by lia.
      replace (53 + Zpos k - 1) with (52 + Zpos k) in Hlo by lia.
      rewrite Z.pow_add_r in Hlo, Hup by lia.
      assert (0 < 2 ^ Zpos k) by (apply Z.pow_pos_nonneg; lia).
      split.
      - apply Z.div_le_lower_bound; lia.
      - apply Z.div_lt_upper_bound; lia. }
    pose proof (round_nearest_even_bounds (shr_m r1) (loc_of_shr_record r1)) as Hr.
    unfold binary_round_aux. rewrite Hs1.
    destruct (round_nearest_even (shr_m r1) (loc_of_shr_record r1))
      as [|p2|p2] eqn:Hm2; [lia| |lia].
    destruct (decide (Zpos p2 = 2 ^ 53)) as [Heq|Hneq].
    + assert (p2 = 9007199254740992%positive) as -> by lia.
      exists 4503599627370496%positive, (Zpos k + 1). split.
      * unfold shr_fexp, shr, fexp, emin. cbn [Zdigits2 shr_record_of_loc].
        change (digits2_pos 9007199254740992) with 54%positive.
        replace (Z.max (54 + Zpos k - 53) (3 - 1024 - 53) - Zpos k) with 1 by lia.
        cbn [SpecFloat.iter_pos shr_1 shr_m orb].
        destruct (Z.leb_spec (Zpos k + 1) (1024 - 53)); [done | lia].
      * apply bounded_intro;
          [change (digits2_pos 4503599627370496) with 53%positive; lia | lia].
    + assert (Zpos (digits2_pos p2) = 53) as Hd2
        by (apply digits2_pos_unique; change (53 - 1) with 52; lia).
      assert (bounded prec emax p2 (Zpos k) = true) as Hb
        by (apply bounded_intro; lia).
      exists p2, (Zpos k). split; [|done].
      change 53 with prec at 1. change 1024 with emax at 1.
      rewrite shr_fexp_canonical by lia. cbn [shr_m].
      destruct (Z.leb_spec (Zpos k) (1024 - 53)); [done | lia].
  - exists (Pos.iter xO m k), (Zpos (digits2_pos m) - 53).
    assert (bounded prec emax (Pos.iter xO m k) (Zpos (digits2_pos m) - 53) = true) as Hb
      by (apply bounded_intro; rewrite ?digits2_pos_iter_xO; lia).
    split; [by apply binary_round_aux_canonical | done].
Qed.

Lemma finite_of_Prim2SF (y : float) s m e : Prim2SF y = S754_finite s m e → finite y.
Proof.
  intros Hy. unfold finite, is_finite, is_nan, is_infinity.
  rewrite (FloatAxioms.eqb_spec y y), (FloatAxioms.eqb_spec (abs y) infinity),
    FloatAxioms.abs_spec, Hy.
  change (Prim2SF infinity) with (S754_infinity false).
  unfold SFeqb, SFabs, SFcompare.
  rewrite Z.compare_refl, Pos.compare_cont_refl. by destruct s.
Qed.

Lemma float64_of_int_finite (z : Z) : is_int z → finite (float64_of_int z).
Proof.
  intros [Hlo Hhi]. unfold float64_of_int, binary_normalize.
  destruct z as [|m|m].
  - reflexivity.
  - destruct (binary_round_int false m) as (m' & e' & -> & Hb); [lia|].
    apply (finite_of_Prim2SF _ false m' e'). by apply Prim2SF_SF2Prim.
  - destruct (binary_round_int true m) as (m' & e' & -> & Hb); [lia|].
    apply (finite_of_Prim2SF _ true m' e'). by apply Prim2SF_SF2Prim.
Qed.

(** The aggregate of a single finite value is that value three times over. *)
Lemma aggregateValues_singleton (v : float) :
  finite v →
  (Average (aggregateValues [v]) =? v)%float = true ∧
  Min (aggregateValues [v]) = v ∧
  Max (aggregateValues [v]) = v ∧
  Values (aggregateValues [v]) = [v].
Proof.
  intros Hv. rewrite aggregateValues_cons. cbn [Average Min Max Values fold_left].
  rewrite fmin_MaxFloat64, fmax_neg_MaxFloat64 by done.
  change (float64_of_int (Z.of_nat (length [v]))) with 1%float.
  split; [by apply mean_of_one_finite | done].
Qed.

(** ** The cache store *)

Lemma getFromCache_state (key : string) (now : Time) (a : Aggregator) :
  snd (getFromCache key now a) = a.
Proof.
  unfold getFromCache. destruct (cache a !! key) as [entry|]; [|done].
  by destruct (Since now (timestamp entry) >? cacheTTL a).
Qed.

Lemma getFromCache_fresh (key : string) (now : Time) (a : Aggregator) entry :
  cache a !! key = Some entry →
  Since now (timestamp entry) <= cacheTTL a →
  fst (getFromCache key now a) = Some (data entry).
Proof.
  intros Hk Hage. unfold getFromCache. rewrite Hk.
  destruct (Z.gtb_spec (Since now (timestamp entry)) (cacheTTL a)); [lia | done].
Qed.

Lemma getFromCache_stale (key : string) (now : Time) (a : Aggregator) entry :
  cache a !! key = Some entry →
  cacheTTL a < Since now (timestamp entry) →
  fst (getFromCache key now a) = None.
Proof.
  intros Hk Hage. unfold getFromCache. rewrite Hk.
  destruct (Z.gtb_spec (Since now (timestamp entry)) (cacheTTL a)); [done | lia].
Qed.

Lemma getFromCache_absent (key : string) (now : Time) (a : Aggregator) :
  cache a !! key = None → fst (getFromCache key now a) = None.
Proof. intros Hk. unfold getFromCache. by rewrite Hk. Qed.

(** A hit is a stored entry that is not stale. *)
Lemma getFromCache_Some (key : string) (now : Time) (a : Aggregator) w :
  fst (getFromCache key now a) = Some w →
  ∃ entry, cache a !! key = Some entry ∧ data entry = w ∧
           Since now (timestamp entry) <= cacheTTL a.
Proof.
  unfold getFromCache. destruct (cache a !! key) as [entry|]; [|done].
  destruct (Z.gtb_spec (Since now (timestamp entry)) (cacheTTL a)); [done|].
  intros [= <-]. exists entry. split; [done|]. split; [done | lia].
Qed.

(** When the difference fits a [Duration], the age is the plain difference. *)
Lemma Since_exact (now t : Time) :
  minDuration <= now - t <= maxDuration → Since now t = now - t.
Proof.
  intros [Hlo Hhi]. unfold Since, Sub.
  destruct (Z.ltb_spec (now - t) minDuration); [lia|].
  destruct (Z.gtb_spec (now - t) maxDuration); [lia | done].
Qed.

(** The age exceeds a TTL exactly when the plain difference of the two
    instants does, the TTL being a [Duration] below the largest one. *)
Lemma Since_exceeds (now t : Time) (ttl : Duration) :
  minDuration <= ttl < maxDuration → (ttl < Since now t ↔ ttl < now - t).
Proof.
  unfold Since, Sub, minDuration, maxDuration. intros [Hlo Hhi].
  destruct (Z.ltb_spec (now - t) (- 2 ^ 63)); [lia|].
  destruct (Z.gtb_spec (now - t) (2 ^ 63 - 1)); lia.
Qed.

(** The TTL set at construction is a whole number of minutes, reduced to 64
    bits: it is never the largest [Duration]. *)
Lemma NewAggregator_cacheTTL (cacheDurationMinutes : Z) :
  minDuration <= cacheTTL (NewAggregator cacheDurationMinutes) < maxDuration.
Proof.
  unfold NewAggregator, wrap_int64, Minute, minDuration, maxDuration. cbn [cacheTTL].
  pose proof (Z.mod_pos_bound (cacheDurationMinutes * (60 * 1000000000) + 2 ^ 63)
                (2 ^ 64) ltac:(lia)) as Hr.
  pose proof (Z.div_mod (cacheDurationMinutes * (60 * 1000000000) + 2 ^ 63)
                (2 ^ 64) ltac:(lia)) as Hd.
  lia.
Qed.

(** C3. After [saveToCache k v] at time [t], [getFromCache k] returns [v]
    itself as long as the age [Since now t] does not exceed the TTL, and
    reports not-found as soon as the age strictly exceeds it, which for a TTL
    below the largest [Duration] is when [now - t] exceeds it; a key that was
    never stored is not found; and a lookup never changes the aggregator, so
    a stale entry stays in the map. *)
Theorem cache_put_get (a : Aggregator) (k : string) (v : AggregatedWeather)
    (t now : Time) :
  let a' := snd (saveToCache k v t a) in
  (Since now t <= cacheTTL a → fst (getFromCache k now a') = Some v) ∧
  (cacheTTL a < Since now t → fst (getFromCache k now a') = None) ∧
  (minDuration <= cacheTTL a < maxDuration →
   (fst (getFromCache k now a') = None ↔ cacheTTL a < now - t)) ∧
  (∀ k', cache a !! k' = None → fst (getFromCache k' now a) = None) ∧
  snd (getFromCache k now a') = a' ∧
  cache (snd (getFromCache k now a')) !! k = Some {| data := v; timestamp := t |}.
Proof.
  intros a'.
  assert (cache a' !! k = Some {| data := v; timestamp := t |}) as Hk
    by apply lookup_insert_eq.
  split; [|split; [|split; [|split; [|split]]]].
  - intros Hage. by rewrite (getFromCache_fresh _ _ _ _ Hk).
  - intros Hage. by rewrite (getFromCache_stale _ _ _ _ Hk).
  - intros Httl. rewrite <- (Since_exceeds now t (cacheTTL a) Httl).
    destruct (Z.lt_ge_cases (cacheTTL a) (Since now t)) as [Hlt|Hge].
    + by rewrite (getFromCache_stale _ _ _ _ Hk).
    + rewrite (getFromCache_fresh _ _ _ _ Hk) by done. split; [done | cbn; lia].
  - intros k'. apply getFromCache_absent.
  - apply getFromCache_state.
  - by rewrite getFromCache_state.
Qed.

Lemma cache_put_get_witness :
  (Since (5 * Minute) 0 <= cacheTTL sample_aggregator ∧
   fst (getFromCache "Paris,FR" (5 * Minute)
          (snd (saveToCache "Paris,FR" sample_weather 0 sample_aggregator)))
   = Some sample_weather) ∧
  (cacheTTL sample_aggregator < Since (10 * Minute + 1) 0 ∧
   fst (getFromCache "Paris,FR" (10 * Minute + 1)
          (snd (saveToCache "Paris,FR" sample_weather 0 sample_aggregator)))
   = None) ∧
  (minDuration <= cacheTTL sample_aggregator < maxDuration ∧
   (fst (getFromCache "Paris,FR" (10 * Minute)
           (snd (saveToCache "Paris,FR" sample_weather 0 sample_aggregator)))
    = None ↔ cacheTTL sample_aggregator < 10 * Minute - 0)) ∧
  (cache sample_aggregator !! "Lyon,FR" = None ∧
   fst (getFromCache "Lyon,FR" 0 sample_aggregator) = None).
Proof.
  split; [|split; [|split]].
  - assert (Since (5 * Minute) 0 <= cacheTTL sample_aggregator) as H
      by (vm_compute; discriminate).
    split; [done|].
    exact (proj1 (cache_put_get sample_aggregator "Paris,FR" sample_weather 0
                    (5 * Minute)) H).
  - assert (cacheTTL sample_aggregator < Since (10 * Minute + 1) 0) as H by reflexivity.
    split; [done|].
    exact (proj1 (proj2 (cache_put_get sample_aggregator "Paris,FR" sample_weather 0
                           (10 * Minute + 1))) H).
  - assert (minDuration <= cacheTTL sample_aggregator < maxDuration) as H
      by (split; [vm_compute; discriminate | reflexivity]).
    split; [done|].
    exact (proj1 (proj2 (proj2 (cache_put_get sample_aggregator "Paris,FR"
                                  sample_weather 0 (10 * Minute)))) H).
  - assert (cache sample_aggregator !! "Lyon,FR" = None) as H by reflexivity.
    split; [done|].
    exact (proj1 (proj2 (proj2 (proj2 (cache_put_get sample_aggregator "Paris,FR"
                                         sample_weather 0 0))))
                 "Lyon,FR" H).
Defined.

(** C8. After [ClearCache] the map is empty, so every key, whatever the age
    of the entry it had, is not found; the providers and the TTL are kept. *)
Theorem ClearCache_spec (a : Aggregator) :
  cache (snd (ClearCache a)) = ∅ ∧
  providers (snd (ClearCache a)) = providers a ∧
  cacheTTL (snd (ClearCache a)) = cacheTTL a ∧
  ∀ key now, fst (getFromCache key now (snd (ClearCache a))) = None.
Proof.
  split; [done|]. split; [done|]. split; [done|].
  intros key now. apply getFromCache_absent. apply lookup_empty.
Qed.

(** ** The fan-out *)

Lemma omap_imap {A B C : Type} (f : B → option C) (g : nat → A → B) (l : list A) :
  omap f (imap g l) = omap id (imap (fun i x => f (g i x)) l).
Proof.
  revert g. induction l as [|x l IH]; intros g; [done|].
  rewrite !imap_cons. cbn [omap list_omap]. rewrite IH.
  unfold id at 2. by destruct (f (g 0%nat x)).
Qed.

(** Each launched goroutine contributes exactly one outcome. *)
Lemma outcomes_partition {A B C : Type} (f : nat → A → option B)
    (g : nat → A → option C) (l : list A) :
  (∀ i x, (is_Some (f i x) ∧ g i x = None) ∨ (f i x = None ∧ is_Some (g i x))) →
  (length (omap id (imap f l)) + length (omap id (imap g l)))%nat = length l.
Proof.
  revert f g. induction l as [|x l IH]; intros f g Hfg; [done|].
  rewrite !imap_cons. cbn [omap list_omap length].
  specialize (IH (f ∘ S) (g ∘ S) (fun i y => Hfg (S i) y)).
  destruct (Hfg 0%nat x) as [[[b Hb] Hg]|[Hf [c Hc]]].
  - rewrite Hb, Hg. simpl. lia.
  - rewrite Hf, Hc. simpl. lia.
Qed.

Lemma reading_or_failure (env : Env) (city country : string) (i : nat) (p : Provider) :
  (is_Some (reading_of env city country i) ∧ failure_of env city country i p = None) ∨
  (reading_of env city country i = None ∧ is_Some (failure_of env city country i p)).
Proof.
  unfold reading_of, failure_of.
  destruct (ctx_Err env i); [right; eauto|].
  destruct (fetch env i city country); [left | right]; eauto.
Qed.

(** The channels deliver, in some order, exactly the readings of the calls
    that succeeded and the failures of the others. *)
Lemma fan_out_messages (env : Env) (city country : string) (ps : list Provider) :
  fst (fan_out env city country ps) ≡ₚ
  imap (fun i p => fst (goroutine env city country i p)) ps.
Proof.
  unfold fan_out. cbn [fst].
  change (map fst ?l) with (fst <$> l).
  rewrite permute_Permutation. by rewrite fmap_imap.
Qed.

Lemma fan_out_results (env : Env) (city country : string) (ps : list Provider) :
  received_results (fst (fan_out env city country ps)) ≡ₚ
  successful_readings env city country ps.
Proof.
  unfold received_results, successful_readings.
  rewrite fan_out_messages, omap_imap.
  erewrite imap_ext; [done|]. intros i p _. cbn beta.
  unfold goroutine, reading_of.
  destruct (ctx_Err env i); [done|]. by destruct (fetch env i city country).
Qed.

Lemma fan_out_errors (env : Env) (city country : string) (ps : list Provider) :
  received_errors (fst (fan_out env city country ps)) ≡ₚ
  captured_failures env city country ps.
Proof.
  unfold received_errors, captured_failures.
  rewrite fan_out_messages, omap_imap.
  erewrite imap_ext; [done|]. intros i p _. cbn beta.
  unfold goroutine, failure_of.
  destruct (ctx_Err env i); [done|]. by destruct (fetch env i city country).
Qed.

Lemma fan_out_count (env : Env) (city country : string) (ps : list Provider) :
  (length (received_results (fst (fan_out env city country ps))) +
   length (received_errors (fst (fan_out env city country ps))))%nat = length ps.
Proof.
  rewrite fan_out_results, fan_out_errors.
  unfold successful_readings, captured_failures.
  apply outcomes_partition. intros i p. apply reading_or_failure.
Qed.

Lemma elem_of_successful_readings (env : Env) (city country : string)
    (ps : list Provider) (w : WeatherData) :
  w ∈ successful_readings env city country ps ↔
  ∃ i p, ps !! i = Some p ∧ reading_of env city country i = Some w.
Proof.
  unfold successful_readings. rewrite list_elem_of_omap. split.
  - intros (o & Ho & Hw). apply elem_of_lookup_imap in Ho as (i & p & -> & Hp).
    by exists i, p.
  - intros (i & p & Hp & Hw). exists (Some w). split; [|done].
    apply elem_of_lookup_imap. by exists i, p.
Qed.

Lemma elem_of_captured_failures (env : Env) (city country : string)
    (ps : list Provider) (e : string) :
  e ∈ captured_failures env city country ps ↔
  ∃ i p, ps !! i = Some p ∧ failure_of env city country i p = Some e.
Proof.
  unfold captured_failures. rewrite list_elem_of_omap. split.
  - intros (o & Ho & He). apply elem_of_lookup_imap in Ho as (i & p & -> & Hp).
    by exists i, p.
  - intros (i & p & Hp & He). exists (Some e). split; [|done].
    apply elem_of_lookup_imap. by exists i, p.
Qed.

(** No provider is called unless a goroutine gets past its select. *)
Lemma fan_out_calls (env : Env) (city country : string) (ps : list Provider) (n : string) :
  n ∈ snd (fan_out env city country ps) →
  ∃ i p, ps !! i = Some p ∧ ctx_Err env i = None ∧ n = Name p.
Proof.
  unfold fan_out. cbn [snd]. change (map snd ?l) with (snd <$> l).
  intros Hn. apply list_elem_of_In, in_concat in Hn as (l & Hl & Hn).
  apply list_elem_of_In in Hl, Hn.
  apply list_elem_of_fmap in Hl as ([m c] & -> & Hin).
  apply elem_of_permute, elem_of_lookup_imap in Hin as (i & p & Heq & Hp).
  exists i, p. split; [done|]. revert Heq Hn. unfold goroutine. cbn [snd].
  destruct (ctx_Err env i).
  - intros [= -> ->]. by intros ?%elem_of_nil.
  - destruct (fetch env i city country); intros [= -> ->];
      intros ->%list_elem_of_singleton; done.
Qed.

Lemma call_succeeded_reading (env : Env) (city country : string) (i : nat) w :
  call_succeeded env city country i w ↔ reading_of env city country i = Some w.
Proof.
  unfold call_succeeded, reading_of. destruct (ctx_Err env i) as [err|].
  - split; [by intros [[=] _] | done].
  - destruct (fetch env i city country) as [w'|cause]; split.
    + by intros [_ [= ->]].
    + by intros [= ->].
    + by intros [_ [=]].
    + done.
Qed.

Lemma call_failed_reading (env : Env) (city country : string) (i : nat) :
  call_failed env city country i ↔ reading_of env city country i = None.
Proof.
  unfold call_failed, reading_of. destruct (ctx_Err env i) as [err|].
  - split; [done | intros _; left; eauto].
  - destruct (fetch env i city country) as [w|cause]; split; try done.
    + intros [[? [=]]|[? [=]]].
    + intros _. right. eauto.
Qed.

(** ** [GetWeather] *)

Lemma GetWeather_hit (env : Env) (city country : string) (a : Aggregator) w :
  fst (getFromCache (cacheKey city country) (now_lookup env) a) = Some w →
  GetWeather env city country a = (Ok w, [], a).
Proof.
  intros H. unfold GetWeather, bind.
  pose proof (getFromCache_state (cacheKey city country) (now_lookup env) a) as Hs.
  destruct (getFromCache (cacheKey city country) (now_lookup env) a) as [cached a'].
  cbn [fst snd] in H, Hs. by subst.
Qed.

Lemma GetWeather_miss (env : Env) (city country : string) (a : Aggregator) :
  fst (getFromCache (cacheKey city country) (now_lookup env) a) = None →
  GetWeather env city country a =
    let msgs := fst (fan_out env city country (providers a)) in
    let calls := snd (fan_out env city country (providers a)) in
    let agg := aggregateWeather (map_order env) (now_aggregate env)
                 (received_results msgs) city country in
    if Z.of_nat (length (providers a)) =? 0
    then (Err NoProvidersAvailable, [], a)
    else if Z.of_nat (length (received_results msgs)) =? 0
    then if Z.of_nat (length (received_errors msgs)) >? 0
         then (Err (AllProvidersFailed (received_errors msgs)), calls, a)
         else (Err EmptyResultSet, calls, a)
    else (Ok agg, calls, snd (saveToCache (cacheKey city country) agg (now_save env) a)).
Proof.
  intros H. unfold GetWeather, bind.
  pose proof (getFromCache_state (cacheKey city country) (now_lookup env) a) as Hs.
  destruct (getFromCache (cacheKey city country) (now_lookup env) a) as [cached a'].
  cbn [fst snd] in H, Hs. subst. cbv zeta.
  destruct (fan_out env city country (providers a)) as [msgs calls]. cbn [fst snd].
  destruct (_ =? 0); [done|]. destruct (_ =? 0); [|done]. by destruct (_ >? 0).
Qed.

(** C7. When the key of the call has an entry that is not stale, the call
    returns the stored aggregate itself, calls no provider, and leaves the
    aggregator, its cache included, as it was. *)
Theorem GetWeather_cache_hit (env : Env) (city country : string) (a : Aggregator)
    (entry : cacheEntry) :
  cache a !! cacheKey city country = Some entry →
  Since (now_lookup env) (timestamp entry) <= cacheTTL a →
  GetWeather env city country a = (Ok (data entry), [], a).
Proof.
  intros Hk Hage. apply GetWeather_hit. by apply getFromCache_fresh.
Qed.

Lemma GetWeather_cache_hit_witness :
  GetWeather (env_later (sample_reading "WeatherAPI" 25%float 40)) "Paris" "FR"
    (snd (saveToCache "Paris,FR" sample_weather 3000 sample_aggregator))
  = (Ok sample_weather, [],
     snd (saveToCache "Paris,FR" sample_weather 3000 sample_aggregator)).
Proof.
  apply (GetWeather_cache_hit _ "Paris" "FR" _
           {| data := sample_weather; timestamp := 3000 |}).
  - reflexivity.
  - vm_compute. discriminate.
Defined.

(** C9. With at least one provider registered and a cache miss, every
    goroutine delivers exactly one outcome, a reading or an error; so no
    reading means at least one error, and [GetWeather] never returns the
    error of its last branch. *)
Theorem EmptyResultSet_unreachable (env : Env) (city country : string)
    (a : Aggregator) :
  providers a ≠ [] →
  fst (getFromCache (cacheKey city country) (now_lookup env) a) = None →
  (length (received_results (fst (fan_out env city country (providers a)))) +
   length (received_errors (fst (fan_out env city country (providers a)))))%nat
  = length (providers a) ∧
  (received_results (fst (fan_out env city country (providers a))) = [] →
   received_errors (fst (fan_out env city country (providers a))) ≠ []) ∧
  fst (fst (GetWeather env city country a)) ≠ Err EmptyResultSet.
Proof.
  intros Hps Hmiss.
  pose proof (fan_out_count env city country (providers a)) as Hcount.
  assert (length (providers a) ≠ 0%nat) as Hlen by (by destruct (providers a)).
  split; [done|]. split.
  - intros Hr He. rewrite Hr, He in Hcount. simpl in Hcount. lia.
  - rewrite GetWeather_miss by done. cbv zeta.
    destruct (Z.eqb_spec (Z.of_nat (length (providers a))) 0); [done|].
    destruct (Z.eqb_spec (Z.of_nat (length (received_results
      (fst (fan_out env city country (providers a)))))) 0) as [Hz|]; [|done].
    destruct (Z.gtb_spec (Z.of_nat (length (received_errors
      (fst (fan_out env city country (providers a)))))) 0); [done|].
    cbn [fst]. lia.
Qed.

Lemma EmptyResultSet_unreachable_witness :
  fst (fst (GetWeather env_all_fail "Paris" "FR" sample_aggregator))
  ≠ Err EmptyResultSet.
Proof.
  refine (proj2 (proj2 (EmptyResultSet_unreachable env_all_fail "Paris" "FR"
                          sample_aggregator _ _))).
  - discriminate.
  - reflexivity.
Defined.

(** C2, with the cancellation as the code captures it. On a cache miss with
    N >= 1 providers whose calls all fail, [GetWeather] fails with
    [AllProvidersFailed] carrying exactly N messages, one per provider, and
    leaves the cache alone; the failure of a call that was made is tagged
    with the provider's name, whereas a cancellation seen before the call is
    the context's own error, with no name on it. *)
Theorem GetWeather_all_failed (env : Env) (city country : string) (a : Aggregator) :
  fst (getFromCache (cacheKey city country) (now_lookup env) a) = None →
  providers a ≠ [] →
  (∀ i p, providers a !! i = Some p → call_failed env city country i) →
  ∃ errs calls,
    GetWeather env city country a = (Err (AllProvidersFailed errs), calls, a) ∧
    length errs = length (providers a) ∧
    errs ≡ₚ captured_failures env city country (providers a) ∧
    ∀ e, e ∈ errs →
      ∃ i p, providers a !! i = Some p ∧
        (ctx_Err env i = Some e ∨
         (ctx_Err env i = None ∧
          (∃ cause, fetch env i city country = FetchErr cause) ∧ tagged p e)).
Proof.
  intros Hmiss Hps Hfail.
  set (msgs := fst (fan_out env city country (providers a))).
  assert (received_results msgs = []) as Hres.
  { apply Permutation_nil_r. unfold msgs. rewrite fan_out_results.
    destruct (successful_readings env city country (providers a)) as [|w l] eqn:Hl; [done|].
    assert (w ∈ successful_readings env city country (providers a)) as Hw
      by (rewrite Hl; left).
    apply elem_of_successful_readings in Hw as (i & p & Hp & Hw).
    apply Hfail, call_failed_reading in Hp. congruence. }
  pose proof (fan_out_count env city country (providers a)) as Hcount.
  fold msgs in Hcount. rewrite Hres in Hcount. cbn [length] in Hcount.
  assert (length (providers a) ≠ 0%nat) as Hlen by (by destruct (providers a)).
  exists (received_errors msgs), (snd (fan_out env city country (providers a))).
  split; [|split; [lia|split]].
  - rewrite GetWeather_miss by done. cbv zeta. fold msgs. rewrite Hres.
    destruct (Z.eqb_spec (Z.of_nat (length (providers a))) 0); [lia|].
    cbn [length]. cbn [Z.of_nat Z.eqb].
    destruct (Z.gtb_spec (Z.of_nat (length (received_errors msgs))) 0); [done | lia].
  - apply fan_out_errors.
  - intros e He. unfold msgs in He. rewrite fan_out_errors in He.
    apply elem_of_captured_failures in He as (i & p & Hp & He).
    exists i, p. split; [done|]. revert He. unfold failure_of.
    destruct (ctx_Err env i) as [err|]; [intros [= ->]; by left|].
    destruct (fetch env i city country) as [w|cause]; [done|].
    intros [= <-]. right. split; [done|]. split; [by exists cause | by exists cause].
Qed.

Lemma GetWeather_all_failed_witness :
  ∃ errs calls,
    GetWeather env_all_fail "Paris" "FR" sample_aggregator
    = (Err (AllProvidersFailed errs), calls, sample_aggregator) ∧
    length errs = 3%nat.
Proof.
  destruct (GetWeather_all_failed env_all_fail "Paris" "FR" sample_aggregator)
    as (errs & calls & Hrun & Hlen & _).
  - reflexivity.
  - discriminate.
  - intros i p _. right. by exists "город не найден"%string.
  - by exists errs, calls.
Defined.

(** C2, as stated with the cancellation tagged too, fails when the context is
    already cancelled: the three messages are the context's error, and none
    of them carries the name of a provider. *)
Lemma cancellation_not_tagged :
  GetWeather env_cancelled "Paris" "FR" sample_aggregator
  = (Err (AllProvidersFailed
            ["context canceled"; "context canceled"; "context canceled"]%string),
     [], sample_aggregator) ∧
  (∀ i p, providers sample_aggregator !! i = Some p →
          call_failed env_cancelled "Paris" "FR" i) ∧
  ∀ p, p ∈ providers sample_aggregator → ¬ tagged p "context canceled".
Proof.
  split; [reflexivity|]. split.
  - intros i p _. left. by eexists.
  - intros p Hp [cause Hc]. vm_compute in Hp.
    repeat (apply elem_of_cons in Hp as [->|Hp]; [cbn in Hc; discriminate|]).
    by apply elem_of_nil in Hp.
Qed.

(** The scenario of two successful readings: 10 and 20 degrees, 50 and 70
    percent. *)
Lemma aggregateWeather_two_readings :
  aw_Temperature (aggregateWeather [] 0
    [sample_reading "A" 10%float 50; sample_reading "B" 20%float 70] "Paris" "FR")
  = {| Average := 15%float; Min := 10%float; Max := 20%float;
       Values := [10%float; 20%float] |} ∧
  aw_Humidity (aggregateWeather [] 0
    [sample_reading "A" 10%float 50; sample_reading "B" 20%float 70] "Paris" "FR")
  = {| Average := 60%float; Min := 50%float; Max := 70%float;
       Values := [50%float; 70%float] |} ∧
  aw_Providers (aggregateWeather [] 0
    [sample_reading "A" 10%float 50; sample_reading "B" 20%float 70] "Paris" "FR")
  = ["A"; "B"]%string.
Proof. repeat split; reflexivity. Qed.

(** The aggregate of a single reading, one field at a time. *)
Lemma aggregateWeather_single (order : list nat) (now : Time) (w : WeatherData)
    (city country : string) :
  aw_Providers (aggregateWeather order now [w] city country) = [wd_Provider w] ∧
  (finite (wd_Temperature w) →
   single_value (aw_Temperature (aggregateWeather order now [w] city country))
                (wd_Temperature w)) ∧
  (finite (wd_FeelsLike w) →
   single_value (aw_FeelsLike (aggregateWeather order now [w] city country))
                (wd_FeelsLike w)) ∧
  (is_int (wd_Humidity w) →
   single_value (aw_Humidity (aggregateWeather order now [w] city country))
                (float64_of_int (wd_Humidity w))) ∧
  (is_int (wd_Pressure w) →
   single_value (aw_Pressure (aggregateWeather order now [w] city country))
                (float64_of_int (wd_Pressure w))) ∧
  (finite (wd_WindSpeed w) →
   single_value (aw_WindSpeed (aggregateWeather order now [w] city country))
                (wd_WindSpeed w)).
Proof.
  split; [done|].
  unfold aggregateWeather, single_value.
  cbn [aw_Temperature aw_FeelsLike aw_Humidity aw_Pressure aw_WindSpeed map].
  repeat split; try (by apply aggregateValues_singleton);
    by apply aggregateValues_singleton, float64_of_int_finite.
Qed.

(** *** Providers within the contract

    Over providers that return a reading or an error, the code run over any
    implementation is the code of [GetWeather] above, and it returns. *)

Lemma delete_fmap {A B : Type} (f : A → B) (i : nat) (l : list A) :
  delete i (f <$> l) = f <$> delete i l.
Proof.
  revert i. induction l as [|x l IH]; intros [|i]; [done..|].
  cbn. by rewrite <- IH.
Qed.

Lemma permute_fmap {A B : Type} (f : A → B) (choices : list nat) (l : list A) :
  permute choices (f <$> l) = f <$> permute choices l.
Proof.
  revert l. induction choices as [|k ks IH]; intros l; [done|].
  cbn [permute]. rewrite length_fmap, list_lookup_fmap.
  destruct (l !! (k `mod` length l)%nat) as [y|]; [|done].
  cbn. by rewrite delete_fmap, IH.
Qed.

Lemma goroutine_within_contract (env : Env) (reply : nat → string → string → Reply)
    (city country : string) (i : nat) (p : Provider) :
  (ctx_Err env i = None →
   within_contract (reply i city country) = Some (fetch env i city country)) →
  AnyProvider.goroutine env reply city country i p
  = Returns (prod_map lift_Message id (goroutine env city country i p)).
Proof.
  unfold AnyProvider.goroutine, goroutine. intros Hkeep.
  destruct (ctx_Err env i) as [err|]; [done|]. specialize (Hkeep eq_refl).
  destruct (reply i city country) as [[w|] [err|]| |]; cbn in Hkeep;
    try discriminate Hkeep; injection Hkeep as <-; done.
Qed.

Lemma Wait_Returns {A B C : Type} (g' : nat → A → Outcome C) (g : nat → A → B)
    (h : B → C) (l : list A) :
  (∀ i x, l !! i = Some x → g' i x = Returns (h (g i x))) →
  AnyProvider.Wait (imap g' l) = Returns (h <$> imap g l).
Proof.
  revert g' g. induction l as [|x l IH]; intros g' g Hg; [done|].
  rewrite !imap_cons. cbn [AnyProvider.Wait].
  rewrite (Hg 0%nat x eq_refl).
  rewrite (IH (g' ∘ S) (g ∘ S)) by (intros i y Hy; apply (Hg (S i) y Hy)).
  done.
Qed.

Lemma received_results_lift (msgs : list Message) :
  AnyProvider.received_results (lift_Message <$> msgs)
  = Some <$> received_results msgs.
Proof.
  induction msgs as [|[w|e] msgs IH]; [done|..]; rewrite fmap_cons;
    unfold AnyProvider.received_results, received_results in *;
    cbn [omap list_omap lift_Message]; by rewrite ?fmap_cons, IH.
Qed.

Lemma received_errors_lift (msgs : list Message) :
  AnyProvider.received_errors (lift_Message <$> msgs) = received_errors msgs.
Proof.
  induction msgs as [|[w|e] msgs IH]; [done|..]; rewrite fmap_cons;
    unfold AnyProvider.received_errors, received_errors in *;
    cbn [omap list_omap lift_Message]; by rewrite IH.
Qed.

Lemma fan_out_within_contract (env : Env) (reply : nat → string → string → Reply)
    (city country : string) (ps : list Provider) :
  keeps_contract env reply city country ps →
  AnyProvider.fan_out env reply city country ps
  = Returns (lift_Message <$> fst (fan_out env city country ps),
             snd (fan_out env city country ps)).
Proof.
  intros Hkeep. unfold AnyProvider.fan_out, fan_out.
  rewrite (Wait_Returns _ (goroutine env city country) (prod_map lift_Message id)).
  - rewrite permute_fmap. cbn [fst snd].
    generalize (permute (schedule env) (imap (goroutine env city country) ps)).
    intros runs. change (map ?f ?l) with (f <$> l).
    by rewrite <- !list_fmap_compose.
  - intros i p Hp. apply goroutine_within_contract. intros Hlive. by eapply Hkeep.
Qed.

Lemma GetWeather_within_contract (env : Env) (reply : nat → string → string → Reply)
    (city country : string) (a : Aggregator) :
  keeps_contract env reply city country (providers a) →
  AnyProvider.GetWeather env reply city country a
  = Returns (GetWeather env city country a).
Proof.
  intros Hkeep. unfold AnyProvider.GetWeather, GetWeather, bind.
  pose proof (getFromCache_state (cacheKey city country) (now_lookup env) a) as Hs.
  destruct (getFromCache (cacheKey city country) (now_lookup env) a) as [cached a'].
  cbn [snd] in Hs. subst a'. destruct cached as [w|]; [done|].
  destruct (_ =? 0); [done|].
  rewrite (fan_out_within_contract _ _ _ _ _ Hkeep).
  destruct (fan_out env city country (providers a)) as [msgs calls]. cbn [fst snd].
  rewrite received_results_lift, received_errors_lift, length_fmap.
  destruct (_ =? 0); [by destruct (_ >? 0)|].
  unfold AnyProvider.aggregateWeather.
  rewrite (mapM_fmap_Some id Some) by done. done.
Qed.

(** C1, for providers that keep the contract and for fields that are finite.
    On a cache miss, if every call that is made returns, with a reading or
    with an error, and the call of at least one registered provider
    succeeds, [GetWeather] returns success, caches the aggregate, and the
    aggregate is computed over exactly the readings of the calls that
    succeeded, in the order the channel delivered them.  When exactly one
    call succeeds, the list of providers is the source name of that reading
    alone (its provider's name, as the adapters stamp it), and for each
    numeric field of that reading that is finite the average, min and max
    equal the value of the reading; the humidity and the pressure, which
    are integers, always are. *)
Theorem GetWeather_partial_success (env : Env) (reply : nat → string → string → Reply)
    (city country : string) (a : Aggregator) :
  fst (getFromCache (cacheKey city country) (now_lookup env) a) = None →
  keeps_contract env reply city country (providers a) →
  (∃ i p w, providers a !! i = Some p ∧ call_succeeded env city country i w) →
  ∃ readings calls,
    let agg := aggregateWeather (map_order env) (now_aggregate env)
                 readings city country in
    readings ≡ₚ successful_readings env city country (providers a) ∧
    AnyProvider.GetWeather env reply city country a =
      Returns (Ok agg, calls,
               snd (saveToCache (cacheKey city country) agg (now_save env) a)) ∧
    ∀ w, successful_readings env city country (providers a) = [w] →
      readings = [w] ∧
      aw_Providers agg = [wd_Provider w] ∧
      (∀ p, wd_Provider w = Name p → aw_Providers agg = [Name p]) ∧
      (finite (wd_Temperature w) →
       single_value (aw_Temperature agg) (wd_Temperature w)) ∧
      (finite (wd_FeelsLike w) →
       single_value (aw_FeelsLike agg) (wd_FeelsLike w)) ∧
      (is_int (wd_Humidity w) →
       single_value (aw_Humidity agg) (float64_of_int (wd_Humidity w))) ∧
      (is_int (wd_Pressure w) →
       single_value (aw_Pressure agg) (float64_of_int (wd_Pressure w))) ∧
      (finite (wd_WindSpeed w) →
       single_value (aw_WindSpeed agg) (wd_WindSpeed w)).
Proof.
  intros Hmiss Hkeep (i & p & w & Hp & Hok).
  set (msgs := fst (fan_out env city country (providers a))).
  pose proof (fan_out_results env city country (providers a)) as Hperm.
  fold msgs in Hperm.
  assert (w ∈ received_results msgs) as Hin.
  { rewrite Hperm. apply elem_of_successful_readings.
    exists i, p. split; [done|]. by apply call_succeeded_reading. }
  assert (providers a ≠ []) as Hps by (intros Hnil; by rewrite Hnil in Hp).
  exists (received_results msgs), (snd (fan_out env city country (providers a))).
  cbv zeta. split; [done|]. split.
  - rewrite (GetWeather_within_contract _ _ _ _ _ Hkeep). f_equal.
    rewrite GetWeather_miss by done. cbv zeta. fold msgs.
    destruct (Z.eqb_spec (Z.of_nat (length (providers a))) 0) as [Hz|_].
    { destruct (providers a); [done | simpl in Hz; lia]. }
    destruct (Z.eqb_spec (Z.of_nat (length (received_results msgs))) 0) as [Hz|_]; [|done].
    destruct (received_results msgs); [by apply elem_of_nil in Hin | simpl in Hz; lia].
  - intros w1 Hone. rewrite Hone in Hperm.
    apply Permutation_singleton_r in Hperm. rewrite Hperm.
    destruct (aggregateWeather_single (map_order env) (now_aggregate env) w1 city country)
      as [Hnames Hstats].
    split; [done|]. split; [done|]. split; [|done].
    intros p1 Hp1. by rewrite Hnames, Hp1.
Qed.

Lemma GetWeather_partial_success_witness :
  ∃ agg calls a',
    AnyProvider.GetWeather (env_one_success sample_reading_not_finite)
      (replies_one_success sample_reading_not_finite
         (Replied None (Some "город не найден"%string)))
      "Paris" "FR" sample_aggregator = Returns (Ok agg, calls, a') ∧
    aw_Providers agg = ["WeatherAPI"%string] ∧
    single_value (aw_Humidity agg) 65%float ∧
    single_value (aw_Pressure agg) 1013%float.
Proof.
  destruct (GetWeather_partial_success
              (env_one_success sample_reading_not_finite)
              (replies_one_success sample_reading_not_finite
                 (Replied None (Some "город не найден"%string)))
              "Paris" "FR" sample_aggregator)
    as (readings & calls & _ & Hrun & Hone).
  - reflexivity.
  - intros [|[|[|i]]] p _ _; reflexivity.
  - exists 1%nat, {| Name := "WeatherAPI"; IsAvailable := true |},
      sample_reading_not_finite.
    split; [reflexivity | split; reflexivity].
  - destruct (Hone sample_reading_not_finite eq_refl)
      as (_ & Hnames & _ & _ & _ & Hh & Hp & _).
    eexists _, _, _. split; [exact Hrun|]. split; [exact Hnames|]. split.
    + apply Hh. unfold is_int. cbn [wd_Humidity sample_reading_not_finite]. lia.
    + apply Hp. unfold is_int. cbn [wd_Pressure sample_reading_not_finite]. lia.
Defined.

(** C1, as stated for every provider and every reading, fails in four ways.
    The list of providers is made of the source names the readings carry:
    when the one successful provider, registered as "WeatherAPI", returns a
    reading whose source name is "Mirror", the list is ["Mirror"].  When the
    one successful reading carries +Inf, -Inf and a NaN in three of its
    fields, the minimum, the maximum and the average of these fields are
    not the values of the reading.  And a call that succeeds does not make
    [GetWeather] return success when another provider returns neither a
    reading nor an error, which ends in a panic, or panics itself, or does
    not return, which keeps [GetWeather] waiting. *)
Lemma GetWeather_single_reading_deviations :
  (providers sample_aggregator !! 1%nat
   = Some {| Name := "WeatherAPI"; IsAvailable := true |} ∧
   successful_readings (env_one_success (sample_reading "Mirror" 22.5%float 65))
     "Paris" "FR" (providers sample_aggregator)
   = [sample_reading "Mirror" 22.5%float 65] ∧
   ∃ agg calls a',
     AnyProvider.GetWeather (env_one_success (sample_reading "Mirror" 22.5%float 65))
       (replies_one_success (sample_reading "Mirror" 22.5%float 65)
          (Replied None (Some "город не найден"%string)))
       "Paris" "FR" sample_aggregator = Returns (Ok agg, calls, a') ∧
     aw_Providers agg = ["Mirror"%string] ∧
     aw_Providers agg ≠ ["WeatherAPI"%string]) ∧
  (successful_readings (env_one_success sample_reading_not_finite)
     "Paris" "FR" (providers sample_aggregator)
   = [sample_reading_not_finite] ∧
   ∃ agg calls a',
     AnyProvider.GetWeather (env_one_success sample_reading_not_finite)
       (replies_one_success sample_reading_not_finite
          (Replied None (Some "город не найден"%string)))
       "Paris" "FR" sample_aggregator = Returns (Ok agg, calls, a') ∧
     aw_Providers agg = ["WeatherAPI"%string] ∧
     Min (aw_Temperature agg) = MaxFloat64 ∧
     Min (aw_Temperature agg) ≠ wd_Temperature sample_reading_not_finite ∧
     Max (aw_FeelsLike agg) = (- MaxFloat64)%float ∧
     Max (aw_FeelsLike agg) ≠ wd_FeelsLike sample_reading_not_finite ∧
     (Average (aw_WindSpeed agg) =? wd_WindSpeed sample_reading_not_finite)%float
     = false) ∧
  (call_succeeded (env_one_success (sample_reading "WeatherAPI" 22.5%float 65))
     "Paris" "FR" 1 (sample_reading "WeatherAPI" 22.5%float 65) ∧
   AnyProvider.GetWeather (env_one_success (sample_reading "WeatherAPI" 22.5%float 65))
     (replies_one_success (sample_reading "WeatherAPI" 22.5%float 65)
        (Replied None None))
     "Paris" "FR" sample_aggregator = Panics ∧
   AnyProvider.GetWeather (env_one_success (sample_reading "WeatherAPI" 22.5%float 65))
     (replies_one_success (sample_reading "WeatherAPI" 22.5%float 65) CallPanics)
     "Paris" "FR" sample_aggregator = Panics ∧
   AnyProvider.GetWeather (env_one_success (sample_reading "WeatherAPI" 22.5%float 65))
     (replies_one_success (sample_reading "WeatherAPI" 22.5%float 65) CallBlocks)
     "Paris" "FR" sample_aggregator = Blocks).
Proof.
  split; [|split].
  - split; [reflexivity|]. split; [reflexivity|].
    eexists _, _, _. split; [reflexivity|].
    split; [reflexivity | discriminate].
  - split; [reflexivity|].
    eexists _, _, _. split; [reflexivity|].
    split; [reflexivity|]. split; [reflexivity|].
    split; [apply MaxFloat64_not_infinity|]. split; [reflexivity|].
    split; [apply neg_MaxFloat64_not_neg_infinity | reflexivity].
  - split; [split; reflexivity|]. repeat split; reflexivity.
Qed.

(** ** The cache key *)

Lemma append_nil_l (s : string) : ("" ++ s)%string = s.
Proof. reflexivity. Qed.

Lemma append_cons (c : ascii) (s t : string) :
  (String c s ++ t)%string = String c (s ++ t).
Proof. reflexivity. Qed.

Lemma has_comma_app_comma (s t : string) : has_comma (s ++ String "," t) = true.
Proof.
  induction s as [|c s IH]; [done|].
  rewrite append_cons. cbn [has_comma]. by destruct (Ascii.eqb c ",").
Qed.

Lemma comma_free_cons (c : ascii) (s : string) :
  comma_free (String c s) → c ≠ ","%char ∧ comma_free s.
Proof.
  unfold comma_free. cbn [has_comma]. by destruct (Ascii.eqb_spec c ",").
Qed.

(** The key determines the pair as soon as the cities, or the countries,
    hold no comma. *)
Lemma cacheKey_inj (city1 country1 city2 country2 : string) :
  (comma_free city1 ∧ comma_free city2) ∨
  (comma_free country1 ∧ comma_free country2) →
  cacheKey city1 country1 = cacheKey city2 country2 →
  city1 = city2 ∧ country1 = country2.
Proof.
  unfold cacheKey. revert city2.
  induction city1 as [|c1 s1 IH]; intros [|c2 s2] Hfree Heq;
    repeat (rewrite append_nil_l in Heq || rewrite append_cons in Heq).
  - by injection Heq as ->.
  - injection Heq as <- ->. exfalso. destruct Hfree as [[_ H2]|[H1 _]].
    + by apply comma_free_cons in H2 as [? _].
    + unfold comma_free in H1. by rewrite has_comma_app_comma in H1.
  - injection Heq as -> <-. exfalso. destruct Hfree as [[H1 _]|[_ H2]].
    + by apply comma_free_cons in H1 as [? _].
    + unfold comma_free in H2. by rewrite has_comma_app_comma in H2.
  - injection Heq as -> Heq. destruct (IH s2) as [-> ->]; [|done|done].
    destruct Hfree as [[H1 H2]|?]; [left | by right].
    apply comma_free_cons in H1 as [_ H1]. by apply comma_free_cons in H2 as [_ H2].
Qed.

(** [GetWeather] writes under its own key only, and never touches the TTL. *)
Lemma GetWeather_frame (env : Env) (city country : string) (a : Aggregator) :
  cacheTTL (snd (GetWeather env city country a)) = cacheTTL a ∧
  providers (snd (GetWeather env city country a)) = providers a ∧
  ∀ key, key ≠ cacheKey city country →
         cache (snd (GetWeather env city country a)) !! key = cache a !! key.
Proof.
  destruct (fst (getFromCache (cacheKey city country) (now_lookup env) a))
    as [w|] eqn:Hlook.
  - by rewrite (GetWeather_hit _ _ _ _ _ Hlook).
  - rewrite (GetWeather_miss _ _ _ _ Hlook). cbv zeta.
    destruct (_ =? 0); [done|]. destruct (_ =? 0).
    + by destruct (_ >? 0).
    + cbn [snd saveToCache cacheTTL providers cache].
      split; [done|]. split; [done|]. intros key Hne. by rewrite lookup_insert_ne.
Qed.

(** A successful call leaves its aggregate in the cache under its key. *)
Lemma GetWeather_Ok_entry (env : Env) (city country : string) (a a1 : Aggregator)
    (w : AggregatedWeather) (calls : list string) :
  GetWeather env city country a = (Ok w, calls, a1) →
  ∃ entry, cache a1 !! cacheKey city country = Some entry ∧ data entry = w.
Proof.
  destruct (fst (getFromCache (cacheKey city country) (now_lookup env) a))
    as [w0|] eqn:Hlook.
  - rewrite (GetWeather_hit _ _ _ _ _ Hlook). intros [= <- <- <-].
    apply getFromCache_Some in Hlook as (entry & Hk & Hd & _). by exists entry.
  - rewrite (GetWeather_miss _ _ _ _ Hlook). cbv zeta.
    destruct (_ =? 0); [done|]. destruct (_ =? 0).
    + by destruct (_ >? 0).
    + intros [= <- <- <-]. eexists. split; [apply lookup_insert_eq | done].
Qed.

(** C6, with the comma accounted for. The key is the exact concatenation of
    city, a comma and country, with no normalization; two calls whose pairs
    differ in any character use different keys as soon as the two cities, or
    the two countries, hold no comma, and then the first call leaves the
    entry the second call looks up untouched, so that the second lookup finds
    what it would have found without the first call. *)
Theorem cacheKey_spec :
  (∀ city country, cacheKey city country = (city ++ "," ++ country)%string) ∧
  ∀ city1 country1 city2 country2,
    (comma_free city1 ∧ comma_free city2) ∨
    (comma_free country1 ∧ comma_free country2) →
    (city1, country1) ≠ (city2, country2) →
    cacheKey city1 country1 ≠ cacheKey city2 country2 ∧
    ∀ env a now,
      cache (snd (GetWeather env city1 country1 a)) !! cacheKey city2 country2
      = cache a !! cacheKey city2 country2 ∧
      fst (getFromCache (cacheKey city2 country2) now
             (snd (GetWeather env city1 country1 a)))
      = fst (getFromCache (cacheKey city2 country2) now a).
Proof.
  split; [done|]. intros city1 country1 city2 country2 Hfree Hne.
  assert (cacheKey city1 country1 ≠ cacheKey city2 country2) as Hkeys.
  { intros Heq. apply cacheKey_inj in Heq as [-> ->]; done. }
  split; [done|]. intros env a now.
  destruct (GetWeather_frame env city1 country1 a) as (Httl & _ & Hframe).
  assert (cache (snd (GetWeather env city1 country1 a)) !! cacheKey city2 country2
          = cache a !! cacheKey city2 country2) as Hk by (by apply Hframe).
  split; [done|]. unfold getFromCache. rewrite Hk, Httl.
  destruct (cache a !! cacheKey city2 country2) as [entry|]; [|done].
  by destruct (Since now (timestamp entry) >? cacheTTL a).
Qed.

Lemma cacheKey_spec_witness :
  cacheKey "Paris" "FR" ≠ cacheKey "paris" "FR" ∧
  cacheKey "Paris" "FR" ≠ cacheKey "Paris " "FR" ∧
  fst (getFromCache (cacheKey "paris" "FR") 4000
         (snd (GetWeather (env_one_success (sample_reading "WeatherAPI" 22.5%float 65))
                 "Paris" "FR" sample_aggregator)))
  = fst (getFromCache (cacheKey "paris" "FR") 4000 sample_aggregator).
Proof.
  assert (comma_free "Paris" ∧ comma_free "paris" ∨ comma_free "FR" ∧ comma_free "FR")
    as H1 by (left; split; reflexivity).
  assert (comma_free "Paris" ∧ comma_free "Paris " ∨ comma_free "FR" ∧ comma_free "FR")
    as H2 by (right; split; reflexivity).
  assert (("Paris", "FR")%string ≠ ("paris", "FR")%string) as N1 by discriminate.
  assert (("Paris", "FR")%string ≠ ("Paris ", "FR")%string) as N2 by discriminate.
  split; [|split].
  - exact (proj1 (proj2 cacheKey_spec "Paris" "FR" "paris" "FR" H1 N1)).
  - exact (proj1 (proj2 cacheKey_spec "Paris" "FR" "Paris " "FR" H2 N2)).
  - exact (proj2 (proj2 (proj2 cacheKey_spec "Paris" "FR" "paris" "FR" H1 N1)
                        (env_one_success (sample_reading "WeatherAPI" 22.5%float 65))
                        sample_aggregator 4000)).
Defined.

(** C6, as stated for every two pairs, fails on the pairs ("a,b", "c") and
    ("a", "b,c"): they differ and yet have the same key, and the lookup of
    the second pair finds the entry that the call for the first pair stored. *)
Lemma cacheKey_collision :
  ("a,b", "c")%string ≠ ("a", "b,c")%string ∧
  cacheKey "a,b" "c" = cacheKey "a" "b,c" ∧
  fst (getFromCache (cacheKey "a" "b,c") 4000
         (snd (GetWeather (env_one_success (sample_reading "WeatherAPI" 22.5%float 65))
                 "a,b" "c" sample_aggregator)))
  ≠ None.
Proof.
  split; [discriminate|]. split; [reflexivity|].
  rewrite GetWeather_miss by reflexivity. vm_compute. discriminate.
Qed.

(** C10. The keying is not injective: the pairs ("a,b", "c") and
    ("a", "b,c") have the same key "a,b,c", so once a call for the first
    pair has returned an aggregate, a call for the second pair within the
    TTL of that entry returns the same aggregate and calls no provider. *)
Theorem cacheKey_collision_hit :
  ("a,b", "c")%string ≠ ("a", "b,c")%string ∧
  cacheKey "a,b" "c" = "a,b,c"%string ∧
  cacheKey "a" "b,c" = "a,b,c"%string ∧
  ∀ env1 env2 a w calls a1,
    GetWeather env1 "a,b" "c" a = (Ok w, calls, a1) →
    ∃ entry,
      cache a1 !! "a,b,c"%string = Some entry ∧ data entry = w ∧
      (Since (now_lookup env2) (timestamp entry) <= cacheTTL a1 →
       GetWeather env2 "a" "b,c" a1 = (Ok w, [], a1)).
Proof.
  split; [discriminate|]. split; [reflexivity|]. split; [reflexivity|].
  intros env1 env2 a w calls a1 Hrun.
  apply GetWeather_Ok_entry in Hrun as (entry & Hk & Hd).
  exists entry. split; [done|]. split; [done|]. intros Hage.
  apply GetWeather_hit. rewrite <- Hd. by apply getFromCache_fresh.
Qed.

Lemma cacheKey_collision_hit_witness :
  ∃ w,
    fst (fst (GetWeather (env_one_success (sample_reading "WeatherAPI" 22.5%float 65))
                "a,b" "c" sample_aggregator)) = Ok w ∧
    GetWeather (env_later (sample_reading "Third" 30%float 10)) "a" "b,c"
      (snd (GetWeather (env_one_success (sample_reading "WeatherAPI" 22.5%float 65))
              "a,b" "c" sample_aggregator))
    = (Ok w, [],
       snd (GetWeather (env_one_success (sample_reading "WeatherAPI" 22.5%float 65))
              "a,b" "c" sample_aggregator)).
Proof.
  destruct (GetWeather (env_one_success (sample_reading "WeatherAPI" 22.5%float 65))
              "a,b" "c" sample_aggregator) as [[r calls] a1] eqn:Hrun.
  rewrite GetWeather_miss in Hrun by reflexivity.
  cbv zeta in Hrun.
  change (Z.of_nat (length (providers sample_aggregator)) =? 0) with false in Hrun.
  change (Z.of_nat (length (received_results (fst (fan_out
            (env_one_success (sample_reading "WeatherAPI" 22.5%float 65))
            "a,b" "c" (providers sample_aggregator))))) =? 0) with false in Hrun.
  cbv iota in Hrun. injection Hrun as <- <- <-.
  eexists. split; [reflexivity|]. cbn [fst snd].
  match goal with |- GetWeather ?e2 _ _ ?s = (Ok ?w, _, _) =>
    destruct (proj2 (proj2 (proj2 cacheKey_collision_hit))
                (env_one_success (sample_reading "WeatherAPI" 22.5%float 65))
                e2 sample_aggregator w
                (snd (fan_out (env_one_success (sample_reading "WeatherAPI" 22.5%float 65))
                        "a,b" "c" (providers sample_aggregator)))
                s) as (entry & Hk & Hd & Hhit)
  end.
  - rewrite GetWeather_miss by reflexivity. reflexivity.
  - apply Hhit. change ("a,b,c"%string) with (cacheKey "a,b" "c") in Hk.
    cbn [snd saveToCache cache] in Hk. rewrite lookup_insert_eq in Hk.
    injection Hk as <-. vm_compute. discriminate.
Defined.

(** * Further properties *)

(** ** Registration *)

Lemma register_all_spec (ps : list Provider) (a : Aggregator) :
  providers (register_all ps a)
  = providers a ++ filter (fun p => IsAvailable p = true) ps ∧
  cache (register_all ps a) = cache a ∧
  cacheTTL (register_all ps a) = cacheTTL a.
Proof.
  revert a. induction ps as [|p ps IH]; intros a.
  - cbn. by rewrite app_nil_r.
  - cbn [register_all foldl]. fold (register_all ps (snd (AddProvider p a))).
    destruct (IH (snd (AddProvider p a))) as (Hp & Hc & Ht).
    rewrite Hp, Hc, Ht. unfold AddProvider. rewrite filter_cons.
    destruct (IsAvailable p) eqn:Hav; cbn [snd providers cache cacheTTL].
    + rewrite decide_True by done. by rewrite <- app_assoc.
    + by rewrite decide_False by done.
Qed.

(** X1. Providers registered one after the other on a new aggregator end up
    in the list exactly when they report themselves available, in the order
    of registration; the count and the names reported are those of that list,
    and the cache is still empty. *)
Theorem AddProvider_registers_available (minutes : Z) (ps : list Provider) :
  providers (register_all ps (NewAggregator minutes))
  = filter (fun p => IsAvailable p = true) ps ∧
  GetProvidersInfo (register_all ps (NewAggregator minutes))
  = map Name (filter (fun p => IsAvailable p = true) ps) ∧
  GetProviderCount (register_all ps (NewAggregator minutes))
  = Z.of_nat (length (GetProvidersInfo (register_all ps (NewAggregator minutes)))) ∧
  cache (register_all ps (NewAggregator minutes)) = ∅.
Proof.
  destruct (register_all_spec ps (NewAggregator minutes)) as (Hp & Hc & _).
  cbn [providers NewAggregator app] in Hp.
  unfold GetProvidersInfo, GetProviderCount. rewrite Hp, Hc, length_map.
  done.
Qed.

(** ** What a call of [GetWeather] changes *)

(** X2. With no provider registered, a call that misses the cache fails with
    the no-providers error at once: nothing is called and nothing changes. *)
Theorem GetWeather_no_providers (env : Env) (city country : string) (a : Aggregator) :
  providers a = [] →
  fst (getFromCache (cacheKey city country) (now_lookup env) a) = None →
  GetWeather env city country a = (Err NoProvidersAvailable, [], a).
Proof.
  intros Hps Hmiss. rewrite GetWeather_miss by done. by rewrite Hps.
Qed.

Lemma GetWeather_no_providers_witness :
  GetWeather env_all_fail "Paris" "FR" (NewAggregator 10)
  = (Err NoProvidersAvailable, [], NewAggregator 10).
Proof.
  apply GetWeather_no_providers; reflexivity.
Defined.

(** X3. A call either leaves the aggregator exactly as it was, or it is a
    successful miss and the only change is the entry under its own key, set
    to the aggregate it returns and stamped with the time of the save.  In
    particular a failed call never writes to the cache, and no call changes
    the providers or the TTL. *)
Theorem GetWeather_footprint (env : Env) (city country : string) (a : Aggregator) :
  (snd (GetWeather env city country a) = a ∨
   ∃ w calls,
     fst (getFromCache (cacheKey city country) (now_lookup env) a) = None ∧
     GetWeather env city country a
     = (Ok w, calls, snd (saveToCache (cacheKey city country) w (now_save env) a))) ∧
  (∀ e calls a', GetWeather env city country a = (Err e, calls, a') → a' = a) ∧
  providers (snd (GetWeather env city country a)) = providers a ∧
  cacheTTL (snd (GetWeather env city country a)) = cacheTTL a.
Proof.
  destruct (GetWeather_frame env city country a) as (Httl & Hps & _).
  split; [|split; [|done]].
  - destruct (fst (getFromCache (cacheKey city country) (now_lookup env) a))
      as [w|] eqn:Hlook.
    + left. by rewrite (GetWeather_hit _ _ _ _ _ Hlook).
    + rewrite (GetWeather_miss _ _ _ _ Hlook). cbv zeta.
      destruct (_ =? 0); [by left|]. destruct (_ =? 0).
      * destruct (_ >? 0); by left.
      * right. by eexists _, _.
  - intros e calls a'.
    destruct (fst (getFromCache (cacheKey city country) (now_lookup env) a))
      as [w|] eqn:Hlook.
    + by rewrite (GetWeather_hit _ _ _ _ _ Hlook).
    + rewrite (GetWeather_miss _ _ _ _ Hlook). cbv zeta.
      destruct (_ =? 0); [by intros [= _ _ <-]|]. destruct (_ =? 0); [|done].
      destruct (_ >? 0); by intros [= _ _ <-].
Qed.

Lemma GetWeather_footprint_witness :
  snd (GetWeather env_all_fail "Paris" "FR" sample_aggregator) = sample_aggregator.
Proof.
  destruct (GetWeather env_all_fail "Paris" "FR" sample_aggregator)
    as [[r calls] a'] eqn:Hrun.
  assert (∃ e, r = Err e) as [e ->].
  { rewrite GetWeather_miss in Hrun by reflexivity.
    injection Hrun as <- _ _. by eexists. }
  exact (proj1 (proj2 (GetWeather_footprint env_all_fail "Paris" "FR" sample_aggregator))
               e calls a' Hrun).
Defined.

(** X4. After a call that missed the cache and succeeded, a second call for
    the same city and country is served from the cache, with the same
    aggregate and no provider call, as long as the age of the entry at the
    second lookup does not exceed the TTL; once it does, the second lookup
    misses again. *)
Theorem GetWeather_twice (env1 env2 : Env) (city country : string)
    (a a1 : Aggregator) (w : AggregatedWeather) (calls : list string) :
  fst (getFromCache (cacheKey city country) (now_lookup env1) a) = None →
  GetWeather env1 city country a = (Ok w, calls, a1) →
  (Since (now_lookup env2) (now_save env1) <= cacheTTL a →
   GetWeather env2 city country a1 = (Ok w, [], a1)) ∧
  (cacheTTL a < Since (now_lookup env2) (now_save env1) →
   fst (getFromCache (cacheKey city country) (now_lookup env2) a1) = None).
Proof.
  intros Hmiss Hrun. rewrite (GetWeather_miss _ _ _ _ Hmiss) in Hrun. cbv zeta in Hrun.
  destruct (_ =? 0) in Hrun; [done|]. destruct (_ =? 0) in Hrun.
  { by destruct (_ >? 0) in Hrun. }
  match type of Hrun with
  | (Ok ?agg, _, snd (saveToCache ?k _ ?t a)) = _ =>
      assert (w = agg) as -> by congruence;
      assert (a1 = snd (saveToCache k agg t a)) as -> by congruence;
      assert (cache (snd (saveToCache k agg t a)) !! k
              = Some {| data := agg; timestamp := t |}) as Hk
        by (unfold saveToCache; cbn [snd cache]; apply lookup_insert_eq)
  end.
  split; intros Hage.
  - apply GetWeather_hit. by rewrite (getFromCache_fresh _ _ _ _ Hk).
  - by rewrite (getFromCache_stale _ _ _ _ Hk).
Qed.

Lemma GetWeather_twice_witness :
  GetWeather (env_later (sample_reading "Third" 30%float 10)) "Paris" "FR"
    (snd (GetWeather (env_one_success (sample_reading "WeatherAPI" 22.5%float 65))
            "Paris" "FR" sample_aggregator))
  = (Ok (aggregateWeather [] 2000 [sample_reading "WeatherAPI" 22.5%float 65]
           "Paris" "FR"),
     [],
     snd (GetWeather (env_one_success (sample_reading "WeatherAPI" 22.5%float 65))
            "Paris" "FR" sample_aggregator)).
Proof.
  refine (proj1 (GetWeather_twice
                   (env_one_success (sample_reading "WeatherAPI" 22.5%float 65))
                   (env_later (sample_reading "Third" 30%float 10))
                   "Paris" "FR" sample_aggregator _ _
                   (snd (fan_out (env_one_success (sample_reading "WeatherAPI" 22.5%float 65))
                           "Paris" "FR" (providers sample_aggregator)))
                   _ _) _).
  - reflexivity.
  - rewrite GetWeather_miss by reflexivity. reflexivity.
  - vm_compute. discriminate.
Defined.

(** ** Which providers a call reaches *)

Lemma concat_Permutation {A : Type} (l l' : list (list A)) :
  l ≡ₚ l' → concat l ≡ₚ concat l'.
Proof.
  induction 1 as [|x l l' _ IH|x y l|l l' l'' _ IH1 _ IH2]; cbn [concat].
  - done.
  - by rewrite IH.
  - by rewrite !app_assoc, (Permutation_app_comm y x).
  - by etrans.
Qed.

Lemma concat_imap_option {A B C : Type} (g : nat → A → B * list C)
    (h : nat → A → option C) (l : list A) :
  (∀ i x, snd (g i x) = option_list (h i x)) →
  concat (map snd (imap g l)) = omap id (imap h l).
Proof.
  revert g h. induction l as [|x l IH]; intros g h Hgh; [done|].
  rewrite !imap_cons. cbn [map concat omap list_omap].
  rewrite (IH (g ∘ S) (h ∘ S)) by (intros i y; apply Hgh).
  rewrite Hgh. unfold id at 2. by destruct (h 0%nat x).
Qed.

Lemma fan_out_called (env : Env) (city country : string) (ps : list Provider) :
  snd (fan_out env city country ps) ≡ₚ called_providers env ps.
Proof.
  unfold fan_out, called_providers. cbn [snd].
  rewrite (concat_Permutation _ (map snd (imap (goroutine env city country) ps))).
  - rewrite (concat_imap_option _
               (fun i p => match ctx_Err env i with
                           | Some _ => None
                           | None => Some (Name p)
                           end)); [done|].
    intros i p. unfold goroutine. destruct (ctx_Err env i); [done|].
    by destruct (fetch env i city country).
  - change (map snd ?l) with (snd <$> l). by rewrite permute_Permutation.
Qed.

Lemma called_providers_live (env : Env) (ps : list Provider) :
  (∀ i, ctx_Err env i = None) → called_providers env ps = map Name ps.
Proof.
  intros Hlive. unfold called_providers.
  assert (∀ (f : nat → Provider → option string) l,
            (∀ i p, f i p = Some (Name p)) → omap id (imap f l) = map Name l) as Hgen.
  { intros f l. revert f. induction l as [|x l IH]; intros f Hf; [done|].
    rewrite imap_cons. cbn [omap list_omap map]. rewrite Hf. cbn [id].
    f_equal. apply IH. intros i p. apply Hf. }
  apply Hgen. intros i p. by rewrite Hlive.
Qed.

Lemma GetWeather_miss_calls (env : Env) (city country : string) (a : Aggregator) :
  fst (getFromCache (cacheKey city country) (now_lookup env) a) = None →
  snd (fst (GetWeather env city country a)) ≡ₚ called_providers env (providers a).
Proof.
  intros Hmiss. rewrite (GetWeather_miss _ _ _ _ Hmiss). cbv zeta.
  destruct (Z.eqb_spec (Z.of_nat (length (providers a))) 0) as [Hz|_].
  - destruct (providers a); [done | cbn in Hz; lia].
  - destruct (_ =? 0); [destruct (_ >? 0)|]; cbn [fst snd]; apply fan_out_called.
Qed.

(** X5. On a miss, the providers called are exactly the registered providers
    whose goroutine finds the context live, each of them once, whatever the
    order in which the goroutines run; with a context that stays live that
    is every registered provider, once each. *)
Theorem GetWeather_calls (env : Env) (city country : string) (a : Aggregator) :
  fst (getFromCache (cacheKey city country) (now_lookup env) a) = None →
  snd (fst (GetWeather env city country a)) ≡ₚ called_providers env (providers a) ∧
  ((∀ i, ctx_Err env i = None) →
   snd (fst (GetWeather env city country a)) ≡ₚ map Name (providers a)).
Proof.
  intros Hmiss. pose proof (GetWeather_miss_calls env city country a Hmiss) as Hcalls.
  split; [done|]. intros Hlive. by rewrite <- (called_providers_live env).
Qed.

Lemma GetWeather_calls_witness :
  snd (fst (GetWeather (env_one_success (sample_reading "WeatherAPI" 22.5%float 65))
              "Paris" "FR" sample_aggregator))
  ≡ₚ ["OpenWeatherMap"; "WeatherAPI"; "Third"]%string.
Proof.
  apply (GetWeather_calls (env_one_success (sample_reading "WeatherAPI" 22.5%float 65))
           "Paris" "FR" sample_aggregator); reflexivity.
Defined.

(** ** The TTL in minutes *)

(** X6. For a cache duration of up to 153722867 minutes either way, the TTL
    of the aggregator is that number of minutes, and an entry is served
    exactly when the difference between the instant of the lookup and the
    instant of the save is at most that long. *)
Theorem NewAggregator_ttl_minutes (minutes : Z) (a : Aggregator) (key : string)
    (entry : cacheEntry) (now : Time) :
  - 153722867 <= minutes <= 153722867 →
  cacheTTL a = cacheTTL (NewAggregator minutes) →
  cache a !! key = Some entry →
  cacheTTL a = minutes * Minute ∧
  (now - timestamp entry <= minutes * Minute →
   fst (getFromCache key now a) = Some (data entry)) ∧
  (minutes * Minute < now - timestamp entry →
   fst (getFromCache key now a) = None).
Proof.
  intros Hm Httl Hk.
  pose proof (NewAggregator_cacheTTL minutes) as Hrange. rewrite <- Httl in Hrange.
  assert (cacheTTL a = minutes * Minute) as Heq.
  { rewrite Httl. unfold NewAggregator, wrap_int64, Minute. cbn [cacheTTL].
    rewrite Z.mod_small; lia. }
  pose proof (Since_exceeds now (timestamp entry) (cacheTTL a) Hrange) as Hex.
  split; [done|]. rewrite <- Heq. split; intros Hage.
  - apply (getFromCache_fresh _ _ _ entry); [done|]. lia.
  - apply (getFromCache_stale _ _ _ entry); [done|]. lia.
Qed.

Lemma NewAggregator_ttl_minutes_witness :
  fst (getFromCache "Paris,FR" (3000 + 10 * Minute)
         (snd (saveToCache "Paris,FR" sample_weather 3000 (NewAggregator 10))))
  = Some sample_weather.
Proof.
  refine (proj1 (proj2 (NewAggregator_ttl_minutes 10
            (snd (saveToCache "Paris,FR" sample_weather 3000 (NewAggregator 10)))
            "Paris,FR" {| data := sample_weather; timestamp := 3000 |}
            (3000 + 10 * Minute) _ _ _)) _).
  - lia.
  - reflexivity.
  - reflexivity.
  - cbn [timestamp]. lia.
Defined.

(** ** The aggregate *)

Lemma aggregateValues_Values (values : list float) :
  Values (aggregateValues values) = values.
Proof.
  destruct values as [|v values]; [done|]. by rewrite aggregateValues_cons.
Qed.

(** X7. The lists of an aggregate are aligned: the name at position [i] of
    the providers list and the value at position [i] of each of the five
    statistics all come from the reading at position [i]. *)
Theorem aggregateWeather_aligned (order : list nat) (now : Time)
    (d : list WeatherData) (city country : string) (i : nat) (w : WeatherData) :
  d !! i = Some w →
  aw_Providers (aggregateWeather order now d city country) !! i
  = Some (wd_Provider w) ∧
  Values (aw_Temperature (aggregateWeather order now d city country)) !! i
  = Some (wd_Temperature w) ∧
  Values (aw_FeelsLike (aggregateWeather order now d city country)) !! i
  = Some (wd_FeelsLike w) ∧
  Values (aw_Humidity (aggregateWeather order now d city country)) !! i
  = Some (float64_of_int (wd_Humidity w)) ∧
  Values (aw_Pressure (aggregateWeather order now d city country)) !! i
  = Some (float64_of_int (wd_Pressure w)) ∧
  Values (aw_WindSpeed (aggregateWeather order now d city country)) !! i
  = Some (wd_WindSpeed w).
Proof.
  intros Hi. unfold aggregateWeather.
  cbn [aw_Providers aw_Temperature aw_FeelsLike aw_Humidity aw_Pressure aw_WindSpeed].
  rewrite !aggregateValues_Values.
  change (map ?f d) with (f <$> d). rewrite !list_lookup_fmap, Hi. done.
Qed.

Lemma aggregateWeather_aligned_witness :
  aw_Providers (aggregateWeather [] 2000
                  [sample_reading "OpenWeatherMap" 20%float 60;
                   sample_reading "WeatherAPI" 22.5%float 65] "Paris" "FR") !! 1%nat
  = Some "WeatherAPI"%string.
Proof.
  apply (aggregateWeather_aligned [] 2000
           [sample_reading "OpenWeatherMap" 20%float 60;
            sample_reading "WeatherAPI" 22.5%float 65] "Paris" "FR" 1
           (sample_reading "WeatherAPI" 22.5%float 65)).
  reflexivity.
Defined.

(** X8. A value that occurs more often than every other value is the one
    [mostFrequent] returns, whatever the order in which the map of counts is
    iterated. *)
Theorem mostFrequent_majority (order : list nat) (values : list string) (v : string) :
  values ≠ [] →
  (∀ u, u ≠ v → occurrences u values < occurrences v values) →
  mostFrequent order values = v.
Proof.
  intros Hne Hmaj. destruct (mostFrequent_max order values Hne) as [_ Hmax].
  destruct (decide (mostFrequent order values = v)) as [|Hdiff]; [done|].
  specialize (Hmax v). specialize (Hmaj _ Hdiff). lia.
Qed.

Lemma mostFrequent_majority_witness :
  mostFrequent [1%nat] ["rain"; "clear"; "rain"]%string = "rain"%string.
Proof.
  apply mostFrequent_majority; [done|].
  intros u Hu. rewrite !occurrences_cons.
  destruct (decide ("rain"%string = u)) as [<-|_]; [done|].
  destruct (decide ("clear"%string = u)), (decide ("rain"%string = "rain"%string));
    unfold occurrences; simpl; try lia; done.
Defined.

Lemma fleb_antisym_eqb (a b : float) :
  finite a → finite b →
  (a <=? b)%float = true → (b <=? a)%float = true → (a =? b)%float = true.
Proof.
  intros Ha%finite_not_nan Hb%finite_not_nan.
  rewrite !FloatAxioms.leb_spec, FloatAxioms.eqb_spec, !SFleb_key by done.
  pose proof (SFcompare_key _ _ Ha Hb) as Hc.
  unfold SFeqb, key_le, key_lt in *.
  destruct (SFcompare (Prim2SF a) (Prim2SF b)) as [[]|]; [done|..|done]; lia.
Qed.

(** X9. On finite values the minimum and the maximum do not depend on the
    order of the readings: for two orders of the same values they are equal
    as numbers. *)
Theorem aggregateValues_order (values values' : list float) :
  values ≡ₚ values' → Forall finite values →
  (Min (aggregateValues values) =? Min (aggregateValues values'))%float = true ∧
  (Max (aggregateValues values) =? Max (aggregateValues values'))%float = true.
Proof.
  intros Hperm Hall.
  assert (Forall finite values') as Hall' by by rewrite <- Hperm.
  rewrite !aggregateValues_refines by done.
  destruct values as [|v vs].
  { apply Permutation_nil_l in Hperm as <-. done. }
  destruct values' as [|v' vs'].
  { by apply Permutation_nil_r in Hperm. }
  set (l := v :: vs) in *. set (l' := v' :: vs') in *.
  cbn [aggregate_numeric Min Max]. change (match l with [] => _ | _ => ?x end) with x.
  destruct (list_min_is_minimum l ltac:(done) Hall) as [Hin Hle].
  destruct (list_min_is_minimum l' ltac:(done) Hall') as [Hin' Hle'].
  destruct (list_max_is_maximum l ltac:(done) Hall) as [Hax Hge].
  destruct (list_max_is_maximum l' ltac:(done) Hall') as [Hax' Hge'].
  rewrite Forall_forall in Hall, Hall'.
  split; apply fleb_antisym_eqb; auto.
  - apply Hle. by rewrite Hperm.
  - apply Hle'. by rewrite <- Hperm.
  - apply Hge'. by rewrite <- Hperm.
  - apply Hge. by rewrite Hperm.
Qed.

Lemma aggregateValues_order_witness :
  (Min (aggregateValues [20; 22.5; 18]%float)
   =? Min (aggregateValues [18; 20; 22.5]%float))%float = true.
Proof.
  refine (proj1 (aggregateValues_order [20; 22.5; 18]%float [18; 20; 22.5]%float _ _)).
  - change ([20; 22.5; 18]%float) with ([20; 22.5]%float ++ [18%float]).
    apply Permutation_app_comm.
  - repeat constructor.
Defined.

(** ** The adapters *)

Lemma OpenWeather_GetWeather_inv (apiKey : string) (x : Exchange) (now : Time)
    (city country : string) (w : WeatherData) :
  OpenWeather_GetWeather apiKey x now city country = FetchOk w →
  apiKey ≠ ""%string ∧
  ∃ body result description icon rest,
    x = Responded StatusOK body ∧ as_OpenWeather body = inr result ∧
    ow_Weather result = (description, icon) :: rest ∧
    w = {| wd_Provider := OpenWeather_Name;
           wd_Location := ow_Name result ++ ", " ++ country;
           wd_Temperature := ow_Temp result;
           wd_FeelsLike := ow_FeelsLike result;
           wd_Humidity := ow_Humidity result;
           wd_Pressure := ow_Pressure result;
           wd_WindSpeed := ow_Speed result;
           wd_WindDirection := ow_Deg result;
           wd_Description := description;
           wd_Icon := icon;
           wd_Sunrise := Unix (ow_Sunrise result);
           wd_Sunset := Unix (ow_Sunset result);
           wd_Timestamp := now;
           wd_Units := "metric" |}.
Proof.
  unfold OpenWeather_GetWeather, OpenWeather_IsAvailable.
  case_bool_decide as Hkey; cbn [negb]; [|done].
  destruct x as [err|err|status body]; [done..|].
  case_bool_decide as Hstatus.
  { repeat case_bool_decide; done. }
  subst status.
  destruct (as_OpenWeather body) as [err|result] eqn:Hbody; [done|].
  destruct (ow_Weather result) as [|[description icon] rest] eqn:Hweather; [done|].
  intros [= <-]. split; [done|]. by exists body, result, description, icon, rest.
Qed.

Lemma WeatherAPI_GetWeather_inv (u : float → Z) (apiKey : string) (x : Exchange)
    (now : Time) (city country : string) (w : WeatherData) :
  WeatherAPI_GetWeather u apiKey x now city country = FetchOk w →
  apiKey ≠ ""%string ∧
  ∃ body result,
    x = Responded StatusOK body ∧ as_WeatherAPI body = inr result ∧
    w = {| wd_Provider := WeatherAPI_Name;
           wd_Location := wa_Name result ++ ", " ++ wa_Country result;
           wd_Temperature := wa_TempC result;
           wd_FeelsLike := wa_FeelsLikeC result;
           wd_Humidity := wa_Humidity result;
           wd_Pressure := int_of_float64 u (wa_PressureMB result);
           wd_WindSpeed := (wa_WindKph result / 0x1.ccccccccccccdp+1)%float;
           wd_WindDirection := wa_WindDeg result;
           wd_Description := wa_Text result;
           wd_Icon := "https:" ++ wa_Icon result;
           wd_Sunrise := zeroTime;
           wd_Sunset := zeroTime;
           wd_Timestamp := now;
           wd_Units := "metric" |}.
Proof.
  unfold WeatherAPI_GetWeather, WeatherAPI_IsAvailable.
  case_bool_decide as Hkey; cbn [negb]; [|done].
  destruct x as [err|err|status body]; [done..|].
  case_bool_decide as Hstatus.
  { destruct (as_apiError body); [case_bool_decide|]; done. }
  subst status.
  destruct (as_WeatherAPI body) as [err|result] eqn:Hbody; [done|].
  intros [= <-]. split; [done|]. by exists body, result.
Qed.

(** X10. Whichever adapter it is, a reading is returned only by an adapter
    with a key, from a response with status 200; the reading carries the
    adapter's own name as its provider, the instant of the call as its
    timestamp, and metric units. *)
Theorem adapter_GetWeather_Ok (u : float → Z) (ad : Adapter) (x : Exchange)
    (now : Time) (city country : string) (w : WeatherData) :
  adapter_GetWeather u ad x now city country = FetchOk w →
  adapter_IsAvailable ad = true ∧
  (∃ body, x = Responded StatusOK body) ∧
  wd_Provider w = adapter_Name ad ∧
  wd_Timestamp w = now ∧
  wd_Units w = "metric"%string.
Proof.
  destruct ad as [apiKey|apiKey]; cbn [adapter_GetWeather adapter_IsAvailable adapter_Name].
  - intros (Hkey & body & result & description & icon & rest & -> & _ & _ & ->)
      %OpenWeather_GetWeather_inv.
    unfold OpenWeather_IsAvailable. rewrite bool_decide_eq_true.
    split; [done|]. split; [by exists body | done].
  - intros (Hkey & body & result & -> & _ & ->)%WeatherAPI_GetWeather_inv.
    unfold WeatherAPI_IsAvailable. rewrite bool_decide_eq_true.
    split; [done|]. split; [by exists body | done].
Qed.

Lemma adapter_GetWeather_Ok_witness :
  ∃ w, adapter_GetWeather (fun _ => 0) (WeatherAPIProvider "k2")
         (Responded StatusOK sample_body) 1500 "Paris" "FR" = FetchOk w ∧
       wd_Provider w = "WeatherAPI"%string.
Proof.
  eexists. split; [reflexivity|].
  apply (adapter_GetWeather_Ok (fun _ => 0) (WeatherAPIProvider "k2")
           (Responded StatusOK sample_body) 1500 "Paris" "FR").
  reflexivity.
Defined.

(** X11. The OpenWeatherMap adapter returns a reading exactly when it has a
    key, the response has status 200, its body decodes, and the decoded
    weather list is not empty.  The reading then takes its description and
    icon from the first entry of that list, and its location from the name in
    the response and the country code of the request. *)
Theorem OpenWeather_GetWeather_success (apiKey : string) (x : Exchange) (now : Time)
    (city country : string) :
  ((∃ w, OpenWeather_GetWeather apiKey x now city country = FetchOk w) ↔
   apiKey ≠ ""%string ∧
   ∃ body result, x = Responded StatusOK body ∧ as_OpenWeather body = inr result ∧
                  ow_Weather result ≠ []) ∧
  ∀ w, OpenWeather_GetWeather apiKey x now city country = FetchOk w →
       ∃ body result, x = Responded StatusOK body ∧ as_OpenWeather body = inr result ∧
         head (ow_Weather result) = Some (wd_Description w, wd_Icon w) ∧
         wd_Location w = (ow_Name result ++ ", " ++ country)%string.
Proof.
  split; [split|].
  - intros [w (Hkey & body & result & description & icon & rest & -> & Hb & Hw & _)
              %OpenWeather_GetWeather_inv].
    split; [done|]. exists body, result. by rewrite Hw.
  - intros (Hkey & body & result & -> & Hb & Hw).
    unfold OpenWeather_GetWeather, OpenWeather_IsAvailable.
    rewrite (bool_decide_eq_true_2 _ Hkey). cbn [negb].
    rewrite bool_decide_eq_false_2 by (by intros []). rewrite Hb.
    destruct (ow_Weather result) as [|[description icon] rest]; [done|]. by eexists.
  - intros w (_ & body & result & description & icon & rest & -> & Hb & Hw & ->)
      %OpenWeather_GetWeather_inv.
    exists body, result. by rewrite Hw.
Qed.

(** X12. The WeatherAPI adapter returns a reading exactly when it has a key,
    the response has status 200 and its body decodes; with any other status
    it fails whatever the body holds.  The reading takes its location from
    the name and the country of the response, not from the request, prefixes
    the icon with the scheme, and leaves sunrise and sunset at the zero
    time. *)
Theorem WeatherAPI_GetWeather_success (u : float → Z) (apiKey : string)
    (x : Exchange) (now : Time) (city country : string) :
  ((∃ w, WeatherAPI_GetWeather u apiKey x now city country = FetchOk w) ↔
   apiKey ≠ ""%string ∧
   ∃ body result, x = Responded StatusOK body ∧ as_WeatherAPI body = inr result) ∧
  ∀ w, WeatherAPI_GetWeather u apiKey x now city country = FetchOk w →
       ∃ body result, x = Responded StatusOK body ∧ as_WeatherAPI body = inr result ∧
         wd_Location w = (wa_Name result ++ ", " ++ wa_Country result)%string ∧
         wd_Icon w = ("https:" ++ wa_Icon result)%string ∧
         wd_Sunrise w = zeroTime ∧ wd_Sunset w = zeroTime.
Proof.
  split; [split|].
  - intros [w (Hkey & body & result & -> & Hb & _)%WeatherAPI_GetWeather_inv].
    split; [done|]. by exists body, result.
  - intros (Hkey & body & result & -> & Hb).
    unfold WeatherAPI_GetWeather, WeatherAPI_IsAvailable.
    rewrite (bool_decide_eq_true_2 _ Hkey). cbn [negb].
    rewrite bool_decide_eq_false_2 by (by intros []). rewrite Hb. by eexists.
  - intros w (_ & body & result & -> & Hb & ->)%WeatherAPI_GetWeather_inv.
    by exists body, result.
Qed.

Lemma OpenWeather_GetWeather_success_witness :
  ∃ w, OpenWeather_GetWeather "k1" (Responded StatusOK sample_body) 1500 "Paris" "FR"
       = FetchOk w.
Proof.
  apply (proj1 (OpenWeather_GetWeather_success "k1" (Responded StatusOK sample_body)
                  1500 "Paris" "FR")).
  split; [done|]. by eexists sample_body, _.
Defined.

Lemma WeatherAPI_GetWeather_success_witness :
  ∃ w, WeatherAPI_GetWeather (fun _ => 0) "k2" (Responded StatusOK sample_body)
         1500 "Paris" "FR" = FetchOk w.
Proof.
  apply (proj1 (WeatherAPI_GetWeather_success (fun _ => 0) "k2"
                  (Responded StatusOK sample_body) 1500 "Paris" "FR")).
  split; [done|]. by eexists sample_body, _.
Defined.

(** ** The aggregator over the adapters *)

Lemma adapter_GetWeather_Provider (u : float → Z) (ad : Adapter) (x : Exchange)
    (now : Time) (city country : string) (w : WeatherData) :
  adapter_GetWeather u ad x now city country = FetchOk w →
  wd_Provider w = adapter_Name ad.
Proof.
  destruct ad as [apiKey|apiKey]; cbn [adapter_GetWeather adapter_Name].
  - by intros (_ & body & result & description & icon & rest & _ & _ & _ & ->)
      %OpenWeather_GetWeather_inv.
  - by intros (_ & body & result & _ & _ & ->)%WeatherAPI_GetWeather_inv.
Qed.

Lemma readings_providers (r : nat → option WeatherData) (ps : list Provider) :
  (∀ i p w, ps !! i = Some p → r i = Some w → wd_Provider w = Name p) →
  map wd_Provider (omap id (imap (fun i _ => r i) ps))
  = omap id (imap (fun i p => match r i with
                              | Some _ => Some (Name p)
                              | None => None
                              end) ps).
Proof.
  revert r. induction ps as [|p ps IH]; intros r Hr; [done|].
  rewrite !imap_cons. cbn [omap list_omap].
  specialize (IH (r ∘ S) (fun i q w Hq Hw => Hr (S i) q w Hq Hw)).
  destruct (r 0%nat) as [w|] eqn:Hw.
  - change (id (Some ?y)) with (Some y). cbn [map].
    rewrite (Hr 0%nat p w) by done. f_equal. apply IH.
  - change (id None) with (@None WeatherData) at 1.
    change (id None) with (@None string). apply IH.
Qed.

Lemma elem_of_successful_providers (env : Env) (city country : string)
    (ps : list Provider) (n : string) :
  n ∈ successful_providers env city country ps ↔
  ∃ i p w, ps !! i = Some p ∧ reading_of env city country i = Some w ∧ n = Name p.
Proof.
  unfold successful_providers. rewrite list_elem_of_omap. split.
  - intros (o & Ho & Hid). unfold id in Hid. subst o.
    apply elem_of_lookup_imap in Ho as (i & p & Heq & Hp).
    destruct (reading_of env city country i) as [w|] eqn:Hw; [|done].
    injection Heq as ->. by exists i, p, w.
  - intros (i & p & w & Hp & Hw & ->). exists (Some (Name p)). split; [|done].
    apply elem_of_lookup_imap. exists i, p. by rewrite Hw.
Qed.

(** X13. When the registered providers are the two adapters of the program,
    the providers list of an aggregate obtained on a miss holds exactly the
    names of the registered providers whose call was made and succeeded, each
    as often as it succeeded; every name in it is a name the aggregator
    reports for its providers. *)
Theorem GetWeather_adapters_providers (u : float → Z) (env : Env)
    (ads : list Adapter) (xs : nat → Exchange) (nows : nat → Time)
    (city country : string) (a a' : Aggregator) (w : AggregatedWeather)
    (calls : list string) :
  providers a = map as_Provider ads →
  fetch env = adapters_fetch u ads xs nows →
  fst (getFromCache (cacheKey city country) (now_lookup env) a) = None →
  GetWeather env city country a = (Ok w, calls, a') →
  aw_Providers w ≡ₚ successful_providers env city country (providers a) ∧
  ∀ n, n ∈ aw_Providers w → n ∈ GetProvidersInfo a.
Proof.
  intros Hps Hfetch Hmiss Hrun.
  assert (aw_Providers w ≡ₚ successful_providers env city country (providers a))
    as Hperm.
  { rewrite (GetWeather_miss _ _ _ _ Hmiss) in Hrun. cbv zeta in Hrun.
    destruct (_ =? 0) in Hrun; [done|]. destruct (_ =? 0) in Hrun.
    { by destruct (_ >? 0) in Hrun. }
    match type of Hrun with
    | (Ok ?agg, _, _) = _ => assert (w = agg) as -> by congruence
    end.
    unfold aggregateWeather. cbn [aw_Providers].
    change (map wd_Provider ?l) with (wd_Provider <$> l).
    rewrite fan_out_results. unfold successful_readings, successful_providers.
    change (wd_Provider <$> ?l) with (map wd_Provider l).
    rewrite (readings_providers (reading_of env city country)); [done|].
    intros i p r Hp Hr. rewrite Hps in Hp.
    change (map as_Provider ads) with (as_Provider <$> ads) in Hp.
    rewrite list_lookup_fmap in Hp.
    destruct (ads !! i) as [ad|] eqn:Had; [|done]. injection Hp as <-.
    apply call_succeeded_reading in Hr as [_ Hr].
    rewrite Hfetch in Hr. unfold adapters_fetch in Hr. rewrite Had in Hr.
    by apply adapter_GetWeather_Provider in Hr. }
  split; [done|]. intros n Hn. rewrite Hperm in Hn.
  apply elem_of_successful_providers in Hn as (i & p & r & Hp & _ & ->).
  unfold GetProvidersInfo. change (map Name ?l) with (Name <$> l).
  apply list_elem_of_fmap. exists p. split; [done|]. by eapply list_elem_of_lookup_2.
Qed.

Lemma GetWeather_adapters_providers_witness :
  aw_Providers (aggregateWeather [] 2000
                  (received_results (fst (fan_out env_adapters "Paris" "FR"
                                            (providers (setup sample_config)))))
                  "Paris" "FR")
  ≡ₚ ["WeatherAPI"]%string.
Proof.
  refine (proj1 (GetWeather_adapters_providers (fun _ => 0) env_adapters
            [OpenWeatherProvider "k1"; WeatherAPIProvider "k2"]
            (fun i => match i with
                      | 0%nat => Responded StatusNotFound sample_body
                      | _ => Responded StatusOK sample_body
                      end)
            (fun _ => 1500) "Paris" "FR" (setup sample_config)
            (snd (saveToCache "Paris,FR"
                    (aggregateWeather [] 2000
                       (received_results (fst (fan_out env_adapters "Paris" "FR"
                                                 (providers (setup sample_config)))))
                       "Paris" "FR") 3000 (setup sample_config)))
            _ (snd (fan_out env_adapters "Paris" "FR" (providers (setup sample_config))))
            _ _ _ _)).
  - reflexivity.
  - reflexivity.
  - reflexivity.
  - rewrite GetWeather_miss by reflexivity. reflexivity.
Defined.

Lemma not_configured_distinct (c : ascii) (s t : string) :
  c ≠ "191"%char →
  String "208" (String c s) ≠ ("провайдер " ++ t)%string.
Proof. intros Hc [= ->]. done. Qed.

(** X14. An adapter that made it into the list of a new aggregator never
    answers that it is not configured: registration keeps only adapters with
    a key, so the check at the head of their [GetWeather] cannot fail. *)
Theorem registered_adapter_configured (u : float → Z) (minutes : Z)
    (ads : list Adapter) (ad : Adapter) (x : Exchange) (now : Time)
    (city country : string) :
  as_Provider ad ∈ providers (register_all (map as_Provider ads) (NewAggregator minutes)) →
  adapter_IsAvailable ad = true ∧
  adapter_GetWeather u ad x now city country
  ≠ FetchErr ("провайдер " ++ adapter_Name ad ++ " не настроен").
Proof.
  intros Hin.
  destruct (register_all_spec (map as_Provider ads) (NewAggregator minutes))
    as (Hps & _ & _).
  rewrite Hps in Hin. cbn [providers NewAggregator app] in Hin.
  apply list_elem_of_filter in Hin as [Hav _]. cbn [as_Provider IsAvailable] in Hav.
  split; [done|].
  destruct ad as [apiKey|apiKey];
    cbn [adapter_GetWeather adapter_IsAvailable adapter_Name] in *.
  - unfold OpenWeather_GetWeather. rewrite Hav. cbn [negb].
    destruct x as [err|err|status body].
    + intros [= Hmsg]; by apply not_configured_distinct in Hmsg.
    + intros [= Hmsg]; by apply not_configured_distinct in Hmsg.
    + repeat case_bool_decide.
      * intros [= Hmsg]; by apply not_configured_distinct in Hmsg.
      * intros [= Hmsg]; by apply not_configured_distinct in Hmsg.
      * intros [= Hmsg]; by apply not_configured_distinct in Hmsg.
      * destruct (as_OpenWeather body) as [err|result].
        { intros [= Hmsg]; by apply not_configured_distinct in Hmsg. }
        destruct (ow_Weather result) as [|[description icon] rest]; [|done].
        intros [= Hmsg]; by apply not_configured_distinct in Hmsg.
  - unfold WeatherAPI_GetWeather. rewrite Hav. cbn [negb].
    destruct x as [err|err|status body].
    + intros [= Hmsg]; by apply not_configured_distinct in Hmsg.
    + intros [= Hmsg]; by apply not_configured_distinct in Hmsg.
    + case_bool_decide.
      * destruct (as_apiError body) as [message|]; [case_bool_decide|];
          intros [= Hmsg]; by apply not_configured_distinct in Hmsg.
      * destruct (as_WeatherAPI body) as [err|result]; [|done].
        intros [= Hmsg]; by apply not_configured_distinct in Hmsg.
Qed.

Lemma registered_adapter_configured_witness :
  adapter_IsAvailable (WeatherAPIProvider "k2") = true.
Proof.
  refine (proj1 (registered_adapter_configured (fun _ => 0) 10
            [OpenWeatherProvider ""; WeatherAPIProvider "k2"] (WeatherAPIProvider "k2")
            (DoFailed "timeout") 1500 "Paris" "FR" _)).
  vm_compute. apply list_elem_of_here.
Defined.

(** ** Configuration *)

Lemma getEnv_default_empty (environ : gmap string string) (key : string) :
  getEnv environ key "" = Getenv environ key.
Proof. unfold getEnv. by case_bool_decide. Qed.

Lemma getEnv_nonempty (environ : gmap string string) (key defaultValue : string) :
  defaultValue ≠ ""%string → getEnv environ key defaultValue ≠ ""%string.
Proof. intros Hd. unfold getEnv. by case_bool_decide. Qed.

Lemma Atoi_range (s : string) (v : Z) : Atoi s = Some v → is_int v.
Proof.
  unfold Atoi, is_int. destruct s as [|c rest]; [done|]. cbv zeta.
  generalize (if bool_decide (c = "-"%char) || bool_decide (c = "+"%char)
              then rest else String c rest).
  intros [|d digits]; [done|].
  destruct (parse_digits 0 (String d digits)) as [n|]; [|done].
  destruct (Z.leb_spec (- 2 ^ 63) (if bool_decide (c = "-"%char) then - n else n));
    [|done].
  destruct (Z.ltb_spec (if bool_decide (c = "-"%char) then - n else n) (2 ^ 63));
    [|done].
  cbn [andb]. by intros [= <-].
Qed.

Lemma getEnvAsInt_cases (environ : gmap string string) (key : string)
    (defaultValue : Z) :
  getEnvAsInt environ key defaultValue = defaultValue ∨
  Atoi (Getenv environ key) = Some (getEnvAsInt environ key defaultValue).
Proof.
  unfold getEnvAsInt. rewrite getEnv_default_empty.
  case_bool_decide; [by left|].
  destruct (Atoi (Getenv environ key)); [by right | by left].
Qed.

(** X15. [Load] fails exactly when both API keys are unset or empty.  A
    configuration it returns has at least one key, a port and a log level
    that are not empty, and a cache duration within the range of [int] that
    is either the default of 10 or the number the variable CACHE_DURATION
    spells. *)
Theorem Load_spec (environ : gmap string string) :
  ((∃ err, Load environ = LoadError err) ↔
   Getenv environ "OPENWEATHER_API_KEY" = ""%string ∧
   Getenv environ "WEATHERAPI_API_KEY" = ""%string) ∧
  ∀ cfg, Load environ = Loaded cfg →
    OpenWeatherAPIKey cfg = Getenv environ "OPENWEATHER_API_KEY" ∧
    WeatherAPIKey cfg = Getenv environ "WEATHERAPI_API_KEY" ∧
    (OpenWeatherAPIKey cfg ≠ ""%string ∨ WeatherAPIKey cfg ≠ ""%string) ∧
    ServerPort cfg ≠ ""%string ∧
    LogLevel cfg ≠ ""%string ∧
    is_int (CacheDuration cfg) ∧
    (CacheDuration cfg = 10 ∨
     Atoi (Getenv environ "CACHE_DURATION") = Some (CacheDuration cfg)).
Proof.
  unfold Load. cbn [OpenWeatherAPIKey WeatherAPIKey]. rewrite !getEnv_default_empty.
  split.
  - split.
    + intros [err Hload]. do 2 case_bool_decide; done.
    + intros [-> ->]. by eexists.
  - intros cfg. do 2 case_bool_decide; cbn [andb]; [done|..]; intros [= <-];
      cbn [OpenWeatherAPIKey WeatherAPIKey ServerPort LogLevel CacheDuration];
      (split; [done|]); (split; [done|]); (split; [by auto|]);
      (split; [by apply getEnv_nonempty|]); (split; [by apply getEnv_nonempty|]);
      (split; [|by apply getEnvAsInt_cases]);
      destruct (getEnvAsInt_cases environ "CACHE_DURATION" 10) as [->|Hatoi];
      try (by eapply Atoi_range); unfold is_int; lia.
Qed.

Lemma Load_spec_witness :
  CacheDuration
    {| OpenWeatherAPIKey := "k1"; WeatherAPIKey := ""; ServerPort := "8080";
       CacheDuration := 15; LogLevel := "info" |} = 10 ∨
  Atoi (Getenv sample_environ "CACHE_DURATION")
  = Some (CacheDuration
            {| OpenWeatherAPIKey := "k1"; WeatherAPIKey := ""; ServerPort := "8080";
               CacheDuration := 15; LogLevel := "info" |}).
Proof.
  apply (proj2 (Load_spec sample_environ)
           {| OpenWeatherAPIKey := "k1"; WeatherAPIKey := ""; ServerPort := "8080";
              CacheDuration := 15; LogLevel := "info" |}).
  reflexivity.
Defined.

(** ** The main package *)

Lemma setup_providers (cfg : Config) :
  providers (setup cfg) = map as_Provider (configured_adapters cfg) ∧
  cache (setup cfg) = ∅ ∧
  cacheTTL (setup cfg) = cacheTTL (NewAggregator (CacheDuration cfg)).
Proof.
  unfold setup, configured_adapters, AddProvider.
  cbn [as_Provider IsAvailable adapter_IsAvailable].
  unfold OpenWeather_IsAvailable, WeatherAPI_IsAvailable.
  destruct (bool_decide (OpenWeatherAPIKey cfg ≠ ""%string)),
    (bool_decide (WeatherAPIKey cfg ≠ ""%string)); done.
Qed.

(** X16. The aggregator [main] sets up holds the adapters whose key is set,
    OpenWeatherMap before WeatherAPI; the guards of [main] on the keys add
    nothing to the check [AddProvider] makes itself, since registering both
    adapters unconditionally gives the same aggregator.  The health handler
    then reports as many providers as there are keys, under the adapters'
    names. *)
Theorem setup_spec (cfg : Config) :
  setup cfg
  = register_all [as_Provider (OpenWeatherProvider (OpenWeatherAPIKey cfg));
                  as_Provider (WeatherAPIProvider (WeatherAPIKey cfg))]
      (NewAggregator (CacheDuration cfg)) ∧
  providers (setup cfg) = map as_Provider (configured_adapters cfg) ∧
  healthHandler (setup cfg)
  = (Z.of_nat (length (configured_adapters cfg)),
     map adapter_Name (configured_adapters cfg)).
Proof.
  split; [|split].
  - unfold setup, register_all, AddProvider.
    cbn [foldl as_Provider IsAvailable adapter_IsAvailable snd].
    unfold OpenWeather_IsAvailable, WeatherAPI_IsAvailable.
    destruct (bool_decide (OpenWeatherAPIKey cfg ≠ ""%string)),
      (bool_decide (WeatherAPIKey cfg ≠ ""%string)); done.
  - apply setup_providers.
  - unfold healthHandler, GetProviderCount, GetProvidersInfo.
    destruct (setup_providers cfg) as [-> _]. rewrite length_map, map_map. done.
Qed.

Lemma GetWeather_miss_outcome (env : Env) (city country : string) (a : Aggregator) :
  fst (getFromCache (cacheKey city country) (now_lookup env) a) = None →
  providers a ≠ [] →
  (∃ w calls,
     GetWeather env city country a
     = (Ok w, calls, snd (saveToCache (cacheKey city country) w (now_save env) a))) ∨
  (∃ errs calls,
     GetWeather env city country a = (Err (AllProvidersFailed errs), calls, a) ∧
     length errs = length (providers a) ∧
     errs ≡ₚ captured_failures env city country (providers a)).
Proof.
  intros Hmiss Hps. rewrite (GetWeather_miss _ _ _ _ Hmiss). cbv zeta.
  pose proof (fan_out_count env city country (providers a)) as Hcount.
  pose proof (fan_out_errors env city country (providers a)) as Herrs.
  destruct (Z.eqb_spec (Z.of_nat (length (providers a))) 0) as [Hz|_].
  { destruct (providers a); [done | cbn in Hz; lia]. }
  destruct (Z.eqb_spec (Z.of_nat (length (received_results
    (fst (fan_out env city country (providers a)))))) 0) as [Hz|_].
  - right. assert (length (providers a) ≠ 0%nat) by (by destruct (providers a)).
    destruct (Z.gtb_spec (Z.of_nat (length (received_errors
      (fst (fan_out env city country (providers a)))))) 0); [|lia].
    eexists _, _. split; [done|]. split; [lia | done].
  - left. by eexists _, _.
Qed.

(** X17. Once [Load] has succeeded, the aggregator [main] sets up has a
    provider, and it keeps it: in every state with these providers a call of
    [GetWeather] either succeeds or fails with the error that lists the
    failures of the providers, never with the no-providers error nor with the
    error of the last branch. *)
Theorem loaded_GetWeather_outcomes (environ : gmap string string) (cfg : Config)
    (a : Aggregator) (env : Env) (city country : string) :
  Load environ = Loaded cfg →
  providers a = providers (setup cfg) →
  providers a ≠ [] ∧
  ((∃ w, fst (fst (GetWeather env city country a)) = Ok w) ∨
   (∃ errs, fst (fst (GetWeather env city country a)) = Err (AllProvidersFailed errs) ∧
            length errs = length (providers a))).
Proof.
  intros Hload Hps.
  assert (providers a ≠ []) as Hne.
  { rewrite Hps. destruct (setup_providers cfg) as [-> _].
    revert Hload. unfold Load, configured_adapters.
    cbn [OpenWeatherAPIKey WeatherAPIKey]. rewrite !getEnv_default_empty.
    do 2 case_bool_decide; cbn [andb]; [done|..]; intros [= <-];
      cbn [OpenWeatherAPIKey WeatherAPIKey];
      repeat case_bool_decide; done. }
  split; [done|].
  destruct (fst (getFromCache (cacheKey city country) (now_lookup env) a))
    as [w|] eqn:Hlook.
  - left. exists w. by rewrite (GetWeather_hit _ _ _ _ _ Hlook).
  - destruct (GetWeather_miss_outcome env city country a Hlook Hne)
      as [(w & calls & ->)|(errs & calls & -> & Hlen & _)].
    + left. by exists w.
    + right. by exists errs.
Qed.

Lemma loaded_GetWeather_outcomes_witness :
  (∃ w, fst (fst (GetWeather env_adapters "Paris" "FR" (setup sample_config))) = Ok w) ∨
  (∃ errs,
     fst (fst (GetWeather env_adapters "Paris" "FR" (setup sample_config)))
     = Err (AllProvidersFailed errs) ∧
     length errs = length (providers (setup sample_config))).
Proof.
  refine (proj2 (loaded_GetWeather_outcomes
                   (<["WEATHERAPI_API_KEY" := "k2"]> sample_environ)
                   {| OpenWeatherAPIKey := "k1"; WeatherAPIKey := "k2";
                      ServerPort := "8080"; CacheDuration := 15; LogLevel := "info" |}
                   (setup sample_config) env_adapters "Paris" "FR" _ _)).
  - reflexivity.
  - reflexivity.
Defined.

(** X18. The list [showProviders] prints from the configuration agrees with
    the aggregator: an adapter has its check-marked line exactly when the
    aggregator [main] has set up reports its name among its providers. *)
Theorem showProviders_agrees (cfg : Config) :
  ("✓ OpenWeatherMap"%string ∈ showProviders cfg ↔
   OpenWeather_Name ∈ GetProvidersInfo (setup cfg)) ∧
  ("✓ WeatherAPI"%string ∈ showProviders cfg ↔
   WeatherAPI_Name ∈ GetProvidersInfo (setup cfg)) ∧
  length (showProviders cfg) = 4%nat.
Proof.
  unfold GetProvidersInfo. destruct (setup_providers cfg) as [-> _].
  unfold showProviders, configured_adapters.
  destruct (bool_decide (OpenWeatherAPIKey cfg ≠ ""%string)),
    (bool_decide (WeatherAPIKey cfg ≠ ""%string));
    cbn [app map as_Provider Name adapter_Name length];
    unfold OpenWeather_Name, WeatherAPI_Name;
    rewrite !elem_of_cons, !elem_of_nil;
    (split; [|split; [|done]]); split; intros H;
    repeat (destruct H as [H|H]; try discriminate H; try done); auto.
Qed.

(** ** The handler of the weather route *)

Lemma GetWeather_Err_state (env : Env) (city country : string) (a a' : Aggregator)
    (e : GetWeatherError) (calls : list string) :
  GetWeather env city country a = (Err e, calls, a') → a' = a.
Proof.
  destruct (fst (getFromCache (cacheKey city country) (now_lookup env) a))
    as [w|] eqn:Hlook.
  - by rewrite (GetWeather_hit _ _ _ _ _ Hlook).
  - rewrite (GetWeather_miss _ _ _ _ Hlook). cbv zeta.
    destruct (_ =? 0); [by intros [= _ _ <-]|]. destruct (_ =? 0); [|done].
    destruct (_ >? 0); by intros [= _ _ <-].
Qed.

Lemma GetWeather_miss_saved (env : Env) (city country : string) (a a' : Aggregator)
    (w : AggregatedWeather) (calls : list string) :
  fst (getFromCache (cacheKey city country) (now_lookup env) a) = None →
  GetWeather env city country a = (Ok w, calls, a') →
  w = aggregateWeather (map_order env) (now_aggregate env)
        (received_results (fst (fan_out env city country (providers a))))
        city country ∧
  received_results (fst (fan_out env city country (providers a))) ≠ [] ∧
  a' = snd (saveToCache (cacheKey city country) w (now_save env) a).
Proof.
  intros Hmiss. rewrite (GetWeather_miss _ _ _ _ Hmiss). cbv zeta.
  destruct (_ =? 0); [done|].
  destruct (Z.eqb_spec (Z.of_nat (length (received_results
    (fst (fan_out env city country (providers a)))))) 0) as [|Hz].
  { by destruct (_ >? 0). }
  intros Hrun.
  assert (w = aggregateWeather (map_order env) (now_aggregate env)
                (received_results (fst (fan_out env city country (providers a))))
                city country) as Hw by congruence.
  split; [done|]. split.
  - intros Hnil. by rewrite Hnil in Hz.
  - rewrite Hw. congruence.
Qed.

Lemma GetWeather_saved_hit (env : Env) (city country : string) (a : Aggregator)
    (w : AggregatedWeather) (t : Time) :
  Since (now_lookup env) t <= cacheTTL a →
  GetWeather env city country (snd (saveToCache (cacheKey city country) w t a))
  = (Ok w, [], snd (saveToCache (cacheKey city country) w t a)).
Proof.
  intros Hage. apply GetWeather_hit.
  apply (getFromCache_fresh _ _ _ {| data := w; timestamp := t |}); [|done].
  unfold saveToCache. cbn [snd cache]. apply lookup_insert_eq.
Qed.

(** X19. The weather handler answers 400, 500 or 200.  It answers 400 exactly
    when the city is empty, and then calls no provider; with 400 and with 500
    the aggregator, its cache included, is left as it was, and the value
    handed to the encoder is an error.  With 200 the value handed to the
    encoder is the aggregate [GetWeather] returned for the city and the
    country, RU when the country is left out; the error of the encoder being
    dropped, the body is the encoding of that aggregate when it has one and
    is empty when it has none, under the same status 200. *)
Theorem weatherHandler_responses (Encode : Payload → option string) (env : Env)
    (city country : string) (a : Aggregator) :
  let out := weatherHandler env city country a in
  let resp := fst (fst out) in
  let run := GetWeather env city
               (if bool_decide (country = ""%string) then "RU"%string else country) a in
  (city = ""%string ∧ status_code resp = StatusBadRequest ∧
   payload resp = ErrorResponse "Не указан город" "" ∧
   snd (fst out) = [] ∧ snd out = a) ∨
  (city ≠ ""%string ∧ status_code resp = StatusInternalServerError ∧
   (∃ e, fst (fst run) = Err e ∧
         payload resp = ErrorResponse "Не удалось получить погоду" (Error e)) ∧
   snd out = a) ∨
  (city ≠ ""%string ∧ status_code resp = StatusOK ∧
   ∃ w, fst (fst run) = Ok w ∧ payload resp = Weather w ∧
        snd (fst out) = snd (fst run) ∧ snd out = snd run ∧
        (∀ text, Encode (Weather w) = Some text → body Encode resp = text) ∧
        (Encode (Weather w) = None → body Encode resp = ""%string)).
Proof.
  cbv zeta. unfold weatherHandler. case_bool_decide as Hcity.
  { left. done. }
  right. unfold bind.
  destruct (GetWeather env city (if bool_decide (country = ""%string)
                                 then "RU"%string else country) a)
    as [[[w|e] calls] a'] eqn:Hrun; cbn [ret fst snd status_code payload].
  - right. split; [done|]. split; [done|]. exists w.
    unfold body. cbn [payload]. repeat split; [by intros text ->|by intros ->].
  - left. split; [done|]. split; [done|]. split; [by exists e|].
    by apply GetWeather_Err_state in Hrun.
Qed.

Lemma weatherHandler_responses_witness :
  status_code (fst (fst (weatherHandler
                           (env_one_success (sample_reading "WeatherAPI" 22.5%float 65))
                           "Paris" "" sample_aggregator))) = StatusOK ∧
  body (fun v => match v with ErrorResponse e _ => Some e | Weather _ => None end)
    (fst (fst (weatherHandler
                 (env_one_success (sample_reading "WeatherAPI" 22.5%float 65))
                 "Paris" "" sample_aggregator))) = ""%string.
Proof.
  destruct (weatherHandler_responses
              (fun v => match v with ErrorResponse e _ => Some e | Weather _ => None end)
              (env_one_success (sample_reading "WeatherAPI" 22.5%float 65))
              "Paris" "" sample_aggregator)
    as [(Hcity & _)|[(_ & Hstatus & _)|(_ & Hstatus & w & _ & _ & _ & _ & _ & Hnone)]].
  - discriminate Hcity.
  - vm_compute in Hstatus. discriminate Hstatus.
  - split; [exact Hstatus | by apply Hnone].
Defined.

(** X20. With a provider registered, a 500 of the weather handler always
    carries the error that lists the failures: one message for every
    registered provider, those of the cancelled goroutines and of the
    failed calls of this request. *)
Theorem weatherHandler_500_details (env : Env) (city country : string)
    (a : Aggregator) :
  providers a ≠ [] →
  status_code (fst (fst (weatherHandler env city country a)))
  = StatusInternalServerError →
  ∃ errs,
    payload (fst (fst (weatherHandler env city country a)))
    = ErrorResponse "Не удалось получить погоду"
        ("все провайдеры вернули ошибки: " ++ format_slice errs) ∧
    length errs = length (providers a) ∧
    errs ≡ₚ captured_failures env city
              (if bool_decide (country = ""%string) then "RU"%string else country)
              (providers a).
Proof.
  intros Hps. unfold weatherHandler. case_bool_decide as Hcity; [done|].
  unfold bind.
  set (cc := if bool_decide (country = ""%string) then "RU"%string else country).
  destruct (fst (getFromCache (cacheKey city cc) (now_lookup env) a))
    as [w|] eqn:Hlook.
  { by rewrite (GetWeather_hit _ _ _ _ _ Hlook). }
  destruct (GetWeather_miss_outcome env city cc a Hlook Hps)
    as [(w & calls & ->)|(errs & calls & -> & Hlen & Hperm)]; [done|].
  intros _. by exists errs.
Qed.

Lemma weatherHandler_500_details_witness :
  ∃ errs,
    payload (fst (fst (weatherHandler env_all_fail "Paris" "" sample_aggregator)))
    = ErrorResponse "Не удалось получить погоду"
        ("все провайдеры вернули ошибки: " ++ format_slice errs) ∧
    length errs = 3%nat.
Proof.
  destruct (weatherHandler_500_details env_all_fail "Paris" "" sample_aggregator)
    as (errs & Hp & Hlen & _).
  - done.
  - reflexivity.
  - by exists errs.
Defined.

(** X21. A request that leaves the country out is the request for the
    country RU: the two are answered alike, and after a 200 for one of them
    on a miss, the other is answered from the cache with the same body and
    no provider call while the entry is within the TTL. *)
Theorem weatherHandler_default_country (env1 env2 : Env) (city : string)
    (a a1 : Aggregator) (resp : Response) (calls : list string) :
  weatherHandler env1 city "" a = weatherHandler env1 city "RU" a ∧
  (fst (getFromCache (cacheKey city "RU") (now_lookup env1) a) = None →
   weatherHandler env1 city "" a = (resp, calls, a1) →
   status_code resp = StatusOK →
   Since (now_lookup env2) (now_save env1) <= cacheTTL a →
   weatherHandler env2 city "RU" a1 = (resp, [], a1)).
Proof.
  split; [done|]. unfold weatherHandler.
  case_bool_decide as Hcity.
  { intros _ [= <- _ _]. done. }
  rewrite bool_decide_eq_true_2 by done. rewrite bool_decide_eq_false_2 by done.
  unfold bind. intros Hmiss.
  destruct (GetWeather env1 city "RU" a) as [[[w|e] calls'] a'] eqn:Hrun;
    cbn [ret]; intros [= <- <- <-]; [|done]. intros _ Hage.
  apply (GetWeather_miss_saved _ _ _ _ _ _ _ Hmiss) in Hrun as (_ & _ & ->).
  by rewrite (GetWeather_saved_hit env2 city "RU" a w (now_save env1) Hage).
Qed.

Lemma weatherHandler_default_country_witness :
  weatherHandler (env_later (sample_reading "Third" 30%float 10)) "Paris" "RU"
    (snd (weatherHandler (env_one_success (sample_reading "WeatherAPI" 22.5%float 65))
            "Paris" "" sample_aggregator))
  = (fst (fst (weatherHandler
                 (env_one_success (sample_reading "WeatherAPI" 22.5%float 65))
                 "Paris" "" sample_aggregator)),
     [],
     snd (weatherHandler (env_one_success (sample_reading "WeatherAPI" 22.5%float 65))
            "Paris" "" sample_aggregator)).
Proof.
  refine (proj2 (weatherHandler_default_country
                   (env_one_success (sample_reading "WeatherAPI" 22.5%float 65))
                   (env_later (sample_reading "Third" 30%float 10))
                   "Paris" sample_aggregator _ _
                   (snd (fst (weatherHandler
                                (env_one_success (sample_reading "WeatherAPI" 22.5%float 65))
                                "Paris" "" sample_aggregator))))
                _ _ _ _).
  - reflexivity.
  - by destruct (weatherHandler _ "Paris" "" sample_aggregator) as [[??]?].
  - unfold weatherHandler, bind. rewrite bool_decide_eq_false_2 by done.
    rewrite GetWeather_miss by reflexivity. reflexivity.
  - vm_compute. discriminate.
Defined.

(** ** Clearing the cache, and the shape of a fresh aggregate *)

(** X22. After [ClearCache] nothing stored earlier is served: the next call,
    for whichever city and country, reaches the registered providers, and an
    aggregate it returns is computed from the readings of that call. *)
Theorem ClearCache_then_GetWeather (env : Env) (city country : string)
    (a : Aggregator) :
  snd (fst (GetWeather env city country (snd (ClearCache a))))
  ≡ₚ called_providers env (providers a) ∧
  ∀ w, fst (fst (GetWeather env city country (snd (ClearCache a)))) = Ok w →
       w = aggregateWeather (map_order env) (now_aggregate env)
             (received_results (fst (fan_out env city country (providers a))))
             city country.
Proof.
  assert (fst (getFromCache (cacheKey city country) (now_lookup env)
                 (snd (ClearCache a))) = None) as Hmiss.
  { apply getFromCache_absent. unfold ClearCache. cbn [snd cache]. apply lookup_empty. }
  split.
  - by rewrite (GetWeather_miss_calls _ _ _ _ Hmiss).
  - intros w Hw.
    destruct (GetWeather env city country (snd (ClearCache a)))
      as [[r calls] a'] eqn:Hrun.
    cbn [fst] in Hw. subst r.
    by apply (GetWeather_miss_saved _ _ _ _ _ _ _ Hmiss) in Hrun as (-> & _).
Qed.

Lemma ClearCache_then_GetWeather_witness :
  aggregateWeather [] 2000 [sample_reading "WeatherAPI" 22.5%float 65] "Paris" "FR"
  = aggregateWeather
      (map_order (env_one_success (sample_reading "WeatherAPI" 22.5%float 65)))
      (now_aggregate (env_one_success (sample_reading "WeatherAPI" 22.5%float 65)))
      (received_results
         (fst (fan_out (env_one_success (sample_reading "WeatherAPI" 22.5%float 65))
                 "Paris" "FR" (providers sample_aggregator))))
      "Paris" "FR".
Proof.
  apply (proj2 (ClearCache_then_GetWeather
                  (env_one_success (sample_reading "WeatherAPI" 22.5%float 65))
                  "Paris" "FR" sample_aggregator)).
  rewrite GetWeather_miss by reflexivity. reflexivity.
Defined.

(** X23. An aggregate returned on a miss is for the city and the country of
    the call, is dated at the instant of the aggregation, names at least one
    provider and at most as many as are registered, and each of its five
    statistics holds one value for each name. *)
Theorem GetWeather_Ok_shape (env : Env) (city country : string) (a a' : Aggregator)
    (w : AggregatedWeather) (calls : list string) :
  fst (getFromCache (cacheKey city country) (now_lookup env) a) = None →
  GetWeather env city country a = (Ok w, calls, a') →
  aw_Location w = (city ++ ", " ++ country)%string ∧
  aw_LastUpdated w = now_aggregate env ∧
  (1 <= length (aw_Providers w) <= length (providers a))%nat ∧
  length (Values (aw_Temperature w)) = length (aw_Providers w) ∧
  length (Values (aw_FeelsLike w)) = length (aw_Providers w) ∧
  length (Values (aw_Humidity w)) = length (aw_Providers w) ∧
  length (Values (aw_Pressure w)) = length (aw_Providers w) ∧
  length (Values (aw_WindSpeed w)) = length (aw_Providers w).
Proof.
  intros Hmiss Hrun.
  apply (GetWeather_miss_saved _ _ _ _ _ _ _ Hmiss) in Hrun as (-> & Hne & _).
  pose proof (fan_out_count env city country (providers a)) as Hcount.
  unfold aggregateWeather.
  cbn [aw_Location aw_LastUpdated aw_Providers aw_Temperature aw_FeelsLike
       aw_Humidity aw_Pressure aw_WindSpeed].
  rewrite !aggregateValues_Values, !length_map.
  destruct (received_results (fst (fan_out env city country (providers a))));
    [done|]. cbn [length] in *. repeat split; lia.
Qed.

Lemma GetWeather_Ok_shape_witness :
  aw_Location (aggregateWeather [] 2000 [sample_reading "WeatherAPI" 22.5%float 65]
                 "Paris" "FR") = "Paris, FR"%string.
Proof.
  refine (proj1 (GetWeather_Ok_shape
                   (env_one_success (sample_reading "WeatherAPI" 22.5%float 65))
                   "Paris" "FR" sample_aggregator
                   (snd (GetWeather
                           (env_one_success (sample_reading "WeatherAPI" 22.5%float 65))
                           "Paris" "FR" sample_aggregator))
                   _
                   (snd (fst (GetWeather
                           (env_one_success (sample_reading "WeatherAPI" 22.5%float 65))
                           "Paris" "FR" sample_aggregator)))
                   _ _)).
  - reflexivity.
  - rewrite GetWeather_miss by reflexivity. reflexivity.
Defined.

(** ** Conversions between [int] and [float64] *)

Lemma Zpos_iter_xO (m k : positive) : Zpos (Pos.iter xO m k) = Zpos m * 2 ^ Zpos k.
Proof.
  induction k as [|k IH] using Pos.peano_ind.
  - cbn [Pos.iter]. lia.
  - rewrite Pos.iter_succ, Pos2Z.inj_xO, IH, Pos2Z.inj_succ, Z.pow_succ_r by lia. lia.
Qed.

(** Below 2^53 the rounding has nothing to round: the mantissa is the number
    itself, shifted to 53 digits. *)
Lemma binary_round_small s m :
  Zpos m < 2 ^ 53 →
  ∃ m' e', binary_round prec emax s m 0 = S754_finite s m' e' ∧
           bounded prec emax m' e' = true ∧
           e' <= 0 ∧ Zpos m' = Zpos m * 2 ^ (- e').
Proof.
  intros Hm.
  pose proof (digits2_pos_bound m) as Hup. pose proof (digits2_pos_lower m) as Hlo.
  pose proof (Pos2Z.is_pos (digits2_pos m)) as Hdpos.
  assert (Zpos (digits2_pos m) <= 53) as Hd53.
  { destruct (Z.le_gt_cases (Zpos (digits2_pos m)) 53) as [|Hgt]; [done|].
    assert (2 ^ 53 <= 2 ^ (Zpos (digits2_pos m) - 1)) by (apply Z.pow_le_mono_r; lia).
    lia. }
  unfold binary_round, shl_align, fexp, emin, prec, emax.
  replace (Z.max (Zpos (digits2_pos m) + 0 - 53) (3 - 1024 - 53))
    with (Zpos (digits2_pos m) - 53) by lia.
  destruct (Zpos (digits2_pos m) - 53 - 0) as [|k|k] eqn:Hk.
  - exists m, 0. split; [|split; [|split]].
    + apply binary_round_aux_canonical, bounded_intro; lia.
    + apply bounded_intro; lia.
    + lia.
    + change (2 ^ (- 0)) with 1. lia.
  - lia.
  - exists (Pos.iter xO m k), (Zpos (digits2_pos m) - 53).
    assert (bounded prec emax (Pos.iter xO m k) (Zpos (digits2_pos m) - 53) = true) as Hb
      by (apply bounded_intro; rewrite ?digits2_pos_iter_xO; lia).
    split; [by apply binary_round_aux_canonical|]. split; [done|]. split; [lia|].
    rewrite Zpos_iter_xO. do 2 f_equal. lia.
Qed.

Lemma trunc_float64_finite s m m' e' :
  bounded prec emax m' e' = true → e' <= 0 → Zpos m' = Zpos m * 2 ^ (- e') →
  trunc_float64 (SF2Prim (S754_finite s m' e'))
  = Some (if s then - Zpos m else Zpos m).
Proof.
  intros Hb He Hval. unfold trunc_float64. rewrite Prim2SF_SF2Prim by done.
  assert (0 < 2 ^ (- e')) by (apply Z.pow_pos_nonneg; lia).
  destruct (Z.leb_spec 0 e') as [Hge|Hlt].
  - assert (e' = 0) as -> by lia. rewrite Hval. change (2 ^ (- 0)) with 1.
    change (2 ^ 0) with 1. by rewrite !Z.mul_1_r.
  - rewrite Hval, Z_div_mult by lia. done.
Qed.

(** X24. An [int] of magnitude below 2^53 survives the conversion to
    [float64] and back: [int(float64(n))] is [n], whatever the platform does
    with the conversions it leaves open.  So the humidity and the pressure
    enter an aggregate without loss, and a whole-number pressure of the
    WeatherAPI adapter is converted to that number. *)
Theorem int_float64_round_trip (u : float → Z) (n : Z) :
  - 2 ^ 53 < n < 2 ^ 53 →
  finite (float64_of_int n) ∧ int_of_float64 u (float64_of_int n) = n.
Proof.
  intros Hn. split.
  { apply float64_of_int_finite. unfold is_int. lia. }
  unfold int_of_float64, float64_of_int, binary_normalize.
  destruct n as [|m|m].
  - reflexivity.
  - destruct (binary_round_small false m) as (m' & e' & -> & Hb & He & Hval); [lia|].
    rewrite (trunc_float64_finite false m m' e') by done.
    destruct (Z.leb_spec (- 2 ^ 63) (Zpos m)); [|lia].
    destruct (Z.ltb_spec (Zpos m) (2 ^ 63)); [done | lia].
  - destruct (binary_round_small true m) as (m' & e' & -> & Hb & He & Hval); [lia|].
    rewrite (trunc_float64_finite true m m' e') by done.
    change (- Zpos m) with (Zneg m).
    destruct (Z.leb_spec (- 2 ^ 63) (Zneg m)); [|lia].
    destruct (Z.ltb_spec (Zneg m) (2 ^ 63)); [done | lia].
Qed.

Lemma int_float64_round_trip_witness :
  int_of_float64 (fun _ => 0) (float64_of_int 1013) = 1013.
Proof.
  apply (int_float64_round_trip (fun _ => 0) 1013). lia.
Defined.

(** ** Entries that have expired *)

(** X25. Nothing but [ClearCache] removes an entry: a lookup leaves the
    aggregator as it was even when the entry it finds has expired, and after
    a call of [GetWeather] every key that had an entry still has one, the
    same one unless it is the key of the call. *)
Theorem cache_never_evicts (env : Env) (city country : string) (a : Aggregator)
    (key : string) (entry : cacheEntry) (now : Time) :
  cache a !! key = Some entry →
  snd (getFromCache key now a) = a ∧
  is_Some (cache (snd (GetWeather env city country a)) !! key) ∧
  (key ≠ cacheKey city country →
   cache (snd (GetWeather env city country a)) !! key = Some entry).
Proof.
  intros Hk. split; [apply getFromCache_state|].
  destruct (GetWeather_frame env city country a) as (_ & _ & Hframe).
  destruct (decide (key = cacheKey city country)) as [->|Hne].
  - split; [|done].
    destruct (fst (getFromCache (cacheKey city country) (now_lookup env) a))
      as [w|] eqn:Hlook.
    + rewrite (GetWeather_hit _ _ _ _ _ Hlook). cbn [snd]. by rewrite Hk.
    + rewrite (GetWeather_miss _ _ _ _ Hlook). cbv zeta.
      destruct (_ =? 0); [cbn [snd]; by rewrite Hk|].
      destruct (_ =? 0); [destruct (_ >? 0); cbn [snd]; by rewrite Hk|].
      unfold saveToCache. cbn [snd cache]. rewrite lookup_insert_eq. done.
  - rewrite (Hframe key Hne), Hk. done.
Qed.

Lemma cache_never_evicts_witness :
  snd (getFromCache "Paris,FR" (3000 + 11 * Minute)
         (snd (saveToCache "Paris,FR" sample_weather 3000 (NewAggregator 10))))
  = snd (saveToCache "Paris,FR" sample_weather 3000 (NewAggregator 10)).
Proof.
  apply (cache_never_evicts env_all_fail "Paris" "FR"
           (snd (saveToCache "Paris,FR" sample_weather 3000 (NewAggregator 10)))
           "Paris,FR" {| data := sample_weather; timestamp := 3000 |}
           (3000 + 11 * Minute)).
  reflexivity.
Defined.
